(** * Colour utilities of the Magic Number palette generator

    A shallow embedding of [utils/colorUtils] (hex/RGB/HSL conversion, WCAG
    relative luminance, the grade table, the bisection search on HSL
    lightness and the palette builder) together with the properties the
    specification states about it, followed by the formatting and
    validation of the typed text and the pure logic of the two views that
    call the module (the contrast checker and the palette generator) with
    further properties read off the code.

    Numbers.  Colour channels and grades are integers in the program
    ([parseInt], [Math.round], table constants) and are modelled in [Z].
    Every other JavaScript number is modelled as a real number with exact
    arithmetic: [Math.max], [Math.min], [Math.abs] are [Rmax], [Rmin],
    [Rabs]; [Math.round x] is [Zfloor (x + 1/2)]; [Math.pow] on a positive
    base is [Rpower].  Rounding of binary64 arithmetic, NaN and the
    infinities are outside this model.

    Module [Binary64] repeats on IEEE binary64 numbers the two parts of
    the module whose result depends on rounding.  The luminance
    computation is evaluated on white and black, the two inputs on which
    an exact comparison with a table bound depends.  The classification
    [determineGrade] is embedded whole: its closest-grade loop compares
    rounded differences, so which differences are equal, and hence which
    band wins a tie, is a matter of binary64 arithmetic.

    Strings are [string], one character per element, so that
    [String.length] is the [length] and [toUpperCase] the upper-casing of
    JavaScript on ASCII texts; the statements that depend on the length
    or on the letter case of a typed text are stated for ASCII texts.
    The 32-bit integer operators of [rgbToHex] are written on [Z] with
    their wrap-around. *)

From Stdlib Require Import ZArith List String Ascii Bool Lia DecimalString.
From Stdlib Require Import Reals Lra Psatz.
From Stdlib Require Floats.
Import ListNotations.

Local Open Scope string_scope.
Local Open Scope Z_scope.

(** ** JavaScript primitives used by the module *)

Module JS.

(** [ToInt32]: wrap-around to a signed 32-bit integer. *)
Definition toInt32 (z : Z) : Z := (z + 2 ^ 31) mod 2 ^ 32 - 2 ^ 31.

(** [x << n] on 32-bit integers. *)
Definition shl (x n : Z) : Z := toInt32 (Z.shiftl (toInt32 x) (n mod 32)).

(** [x | y] on 32-bit integers. *)
Definition bor (x y : Z) : Z := toInt32 (Z.lor (toInt32 x) (toInt32 y)).

(** The digit characters of [Number.prototype.toString(16)]. *)
Definition digitChar (d : Z) : ascii :=
  if d <? 10 then ascii_of_N (Z.to_N (48 + d))
  else ascii_of_N (Z.to_N (87 + d)).

(** Digits of a non-negative integer in base 16, most significant
    first, by repeated division. *)
Fixpoint hexDigits (fuel : nat) (n : Z) (acc : string) : string :=
  match fuel with
  | O => acc
  | S f =>
      let acc' := String (digitChar (n mod 16)) acc in
      if n / 16 =? 0 then acc' else hexDigits f (n / 16) acc'
  end.

(** [n.toString(16)] for an integer [n].  [Z.log2 n + 1] bits bound
    the number of base-16 digits, see [hexDigits_fuel]. *)
Definition toString16 (n : Z) : string :=
  if n <? 0
  then String "-" (hexDigits (S (Z.to_nat (Z.log2 (- n)))) (- n) "")
  else hexDigits (S (Z.to_nat (Z.log2 n))) n "".

(** [s.slice(1)]. *)
Definition slice1 (s : string) : string :=
  match s with
  | EmptyString => EmptyString
  | String _ rest => rest
  end.

(** [toUpperCase] on one character of the ASCII range; characters
    outside it are left as they are. *)
Definition upperChar (c : ascii) : ascii :=
  let n := N_of_ascii c in
  if ((97 <=? n) && (n <=? 122))%N then ascii_of_N (n - 32) else c.

Fixpoint toUpperCase (s : string) : string :=
  match s with
  | EmptyString => EmptyString
  | String c rest => String (upperChar c) (toUpperCase rest)
  end.

(** Value of one character matched by [[a-f\d]] under the [i] flag. *)
Definition hexVal (c : ascii) : option Z :=
  let n := Z.of_N (N_of_ascii c) in
  if (48 <=? n) && (n <=? 57) then Some (n - 48)
  else if (97 <=? n) && (n <=? 102) then Some (n - 87)
  else if (65 <=? n) && (n <=? 70) then Some (n - 55)
  else None.

(** [parseInt(s, 16)] on a two-character capture group of hex digits. *)
Definition parseInt16 (c1 c2 : ascii) : option Z :=
  match hexVal c1, hexVal c2 with
  | Some h, Some l => Some (16 * h + l)
  | _, _ => None
  end.

(** [Math.round]: the nearest integer, halves rounded up. *)
Definition Math_round (x : R) : Z := Zfloor (x + 1 / 2)%R.

(** [Math.pow] for a non-negative base and a positive exponent. *)
Definition Math_pow (x y : R) : R :=
  if Req_dec_T x 0 then 0%R else Rpower x y.

(** [Number.MAX_VALUE] = (2^53 - 1) * 2^971. *)
Definition Number_MAX_VALUE : R := IZR ((2 ^ 53 - 1) * 2 ^ 971).

(** Comparisons of numbers as booleans. *)
Definition leb (x y : R) : bool := if Rle_dec x y then true else false.
Definition ltb (x y : R) : bool := if Rlt_dec x y then true else false.
Definition geb (x y : R) : bool := leb y x.
Definition gtb (x y : R) : bool := ltb y x.
Definition eqb (x y : R) : bool := if Req_dec_T x y then true else false.

End JS.

Import JS.

(** ** The data model *)

Record RGB := mkRGB { red : Z; green : Z; blue : Z }.

Record HSL := mkHSL { hue : R; sat : R; light : R }.

Record GradeRange := mkRange { grade : Z; rmin : R; rmax : R }.

(** A property that may be absent, [null] or a grade. *)
Inductive Neighbor := Undefined | Null | Grade (g : Z).

Record GradeInfo := mkInfo {
  gi_grade : Z;
  gi_exact : bool;
  gi_lowerGrade : Neighbor;
  gi_higherGrade : Neighbor
}.

Record PaletteEntry := mkEntry {
  pe_grade : Z;
  pe_color : string;
  pe_luminance : R;
  pe_isInputColor : bool
}.

Record PaletteResult := mkResult {
  palette : list PaletteEntry;
  inputGradeInfo : GradeInfo
}.

Local Open Scope R_scope.

Definition LUMINANCE_RANGES : list GradeRange :=
  [ mkRange 0 1.000 1.000;
    mkRange 5 0.850 0.930;
    mkRange 10 0.750 0.820;
    mkRange 20 0.500 0.650;
    mkRange 30 0.350 0.450;
    mkRange 40 0.225 0.300;
    mkRange 50 0.175 0.183;
    mkRange 60 0.100 0.125;
    mkRange 70 0.050 0.070;
    mkRange 80 0.020 0.040;
    mkRange 90 0.005 0.015;
    mkRange 100 0.000 0.000 ].

Definition GRADES : list Z := [0; 5; 10; 20; 30; 40; 50; 60; 70; 80; 90; 100]%Z.

(** ** Colour conversion *)

(** The regular expression [/^#?([a-f\d]{2})([a-f\d]{2})([a-f\d]{2})$/i]:
    an optional ['#'], then exactly six hex digits. *)
Definition hexToRgb (hex : string) : option RGB :=
  let body := match hex with
              | String "#" rest => rest
              | _ => hex
              end in
  match body with
  | String c1 (String c2 (String c3 (String c4 (String c5 (String c6 EmptyString))))) =>
      match parseInt16 c1 c2, parseInt16 c3 c4, parseInt16 c5 c6 with
      | Some r, Some g, Some b => Some (mkRGB r g b)
      | _, _, _ => None
      end
  | _ => None
  end.

Definition rgbToHex (r g b : Z) : string :=
  String "#"
    (toUpperCase
       (slice1 (toString16 (bor (bor (bor (shl 1 24) (shl r 16)) (shl g 8)) b)))).

Definition rgbToHsl (r g b : Z) : HSL :=
  let r := IZR r / 255 in
  let g := IZR g / 255 in
  let b := IZR b / 255 in
  let max := Rmax (Rmax r g) b in
  let min := Rmin (Rmin r g) b in
  let l := (max + min) / 2 in
  if eqb max min then mkHSL 0 0 l
  else
    let d := max - min in
    let s := if gtb l 0.5 then d / (2 - max - min) else d / (max + min) in
    let h :=
      if eqb max r then (g - b) / d + (if ltb g b then 6 else 0)
      else if eqb max g then (b - r) / d + 2
      else if eqb max b then (r - g) / d + 4
      else 0 in
    mkHSL (h / 6) s l.

Definition hue2rgb (p q t : R) : R :=
  let t := if ltb t 0 then t + 1 else t in
  let t := if gtb t 1 then t - 1 else t in
  if ltb t (1 / 6) then p + (q - p) * 6 * t
  else if ltb t (1 / 2) then q
  else if ltb t (2 / 3) then p + (q - p) * (2 / 3 - t) * 6
  else p.

Definition hslToRgb (h s l : R) : RGB :=
  let '(r, g, b) :=
    if eqb s 0 then (l, l, l)
    else
      let q := if ltb l 0.5 then l * (1 + s) else l + s - l * s in
      let p := 2 * l - q in
      (hue2rgb p q (h + 1 / 3), hue2rgb p q h, hue2rgb p q (h - 1 / 3)) in
  mkRGB (Math_round (r * 255)) (Math_round (g * 255)) (Math_round (b * 255)).

(** ** Luminance and contrast *)

(** The sRGB to linear-light transform of one channel. *)
Definition linearChannel (c : R) : R :=
  if leb c 0.03928 then c / 12.92 else Math_pow ((c + 0.055) / 1.055) 2.4.

Definition calculateLuminance (r g b : Z) : R :=
  let rsrgb := IZR r / 255 in
  let gsrgb := IZR g / 255 in
  let bsrgb := IZR b / 255 in
  let r1 := linearChannel rsrgb in
  let g1 := linearChannel gsrgb in
  let b1 := linearChannel bsrgb in
  0.2126 * r1 + 0.7152 * g1 + 0.0722 * b1.

Definition calculateContrastRatio (color1 color2 : string) : R :=
  match hexToRgb color1, hexToRgb color2 with
  | Some rgb1, Some rgb2 =>
      let luminance1 := calculateLuminance (red rgb1) (green rgb1) (blue rgb1) in
      let luminance2 := calculateLuminance (red rgb2) (green rgb2) (blue rgb2) in
      let lighter := Rmax luminance1 luminance2 in
      let darker := Rmin luminance1 luminance2 in
      (lighter + 0.05) / (darker + 0.05)
  | _, _ => 1
  end.

(** ** The grade table *)

(** [Array.prototype.sort] with a comparator, as a stable insertion
    sort: [x] goes before the first element the comparator places
    after it. *)
Fixpoint insertBy {A} (cmp : A -> A -> R) (x : A) (l : list A) : list A :=
  match l with
  | [] => [x]
  | y :: t => if gtb (cmp y x) 0 then x :: y :: t else y :: insertBy cmp x t
  end.

Definition sortBy {A} (cmp : A -> A -> R) (l : list A) : list A :=
  fold_left (fun acc x => insertBy cmp x acc) l [].

Definition sortedRanges : list GradeRange :=
  sortBy (fun a b => rmin b - rmin a) LUMINANCE_RANGES.

(** The scan of [findNeighboringGrades]; [prev] is [sortedRanges[i-1]],
    absent at [i = 0].  The result is [(lowerGrade, higherGrade)]. *)
Fixpoint scanNeighbors (luminance : R) (prev : option GradeRange)
    (rest : list GradeRange) : Neighbor * Neighbor :=
  match rest with
  | [] => (Null, Null)
  | range :: rest' =>
      if gtb luminance (rmin range)
      then (Grade (grade range),
            match prev with
            | Some p => Grade (grade p)
            | None => Null
            end)
      else scanNeighbors luminance (Some range) rest'
  end.

Definition findNeighboringGrades (luminance : R) : Neighbor * Neighbor :=
  let '(lowerGrade, higherGrade) := scanNeighbors luminance None sortedRanges in
  let lowerGrade :=
    match lowerGrade with
    | Null =>
        match rev sortedRanges with
        | lastRange :: _ => Grade (grade lastRange)
        | [] => Null
        end
    | _ => lowerGrade
    end in
  (lowerGrade, higherGrade).

(** One round of the closest-grade loop of [determineGrade] on the pair
    [(closestGrade, minDifference)].  Differences are exact here; the
    loop on rounded differences, which decides the ties of the program,
    is [Binary64.closerGrade]. *)
Definition closerGrade (luminance : R) (acc : Z * R) (range : GradeRange)
    : Z * R :=
  let '(closestGrade, minDifference) := acc in
  let midRange := (rmin range + rmax range) / 2 in
  let difference := Rabs (luminance - midRange) in
  if ltb difference minDifference then (grade range, difference)
  else (closestGrade, minDifference).

Definition determineGrade (luminance : R) : GradeInfo :=
  match find (fun range => geb luminance (rmin range) && leb luminance (rmax range))
             LUMINANCE_RANGES with
  | Some range => mkInfo (grade range) true Undefined Undefined
  | None =>
      let '(closestGrade, _) :=
        fold_left (closerGrade luminance) LUMINANCE_RANGES (50%Z, Number_MAX_VALUE) in
      let '(lowerGrade, higherGrade) := findNeighboringGrades luminance in
      mkInfo closestGrade false lowerGrade higherGrade
  end.

(** ** Colour synthesis *)

Definition adjustSaturationForPastel (saturation luminance : R) (grade : Z) : R :=
  if ((grade =? 0) || (grade =? 100))%Z then 0
  else
    let baseSaturation := Rmax saturation 0.08 in
    let normalizedGrade := IZR grade / 100 in
    let smoothCurve := Math_pow normalizedGrade 1.6 in
    let ultraSmoothFactor := normalizedGrade * normalizedGrade * normalizedGrade in
    let blendedFactor := smoothCurve * 0.7 + ultraSmoothFactor * 0.3 in
    let saturationMultiplier := 0.45 + blendedFactor * 0.35 in
    let maxSaturation := 0.4 + blendedFactor * 0.3 in
    Rmin (baseSaturation * saturationMultiplier) maxSaturation.

(** The starting lightness chosen from the target luminance. *)
Definition initialMid (targetLuminance : R) : R :=
  if gtb targetLuminance 0.9 then 0.95
  else if gtb targetLuminance 0.7 then 0.85
  else if gtb targetLuminance 0.3 then 0.6
  else if gtb targetLuminance 0.1 then 0.4
  else 0.2.

Definition toleranceFor (grade : option Z) : R :=
  match grade with
  | Some grade =>
      if (grade <=? 20)%Z then 0.002
      else if (grade <=? 40)%Z then 0.001
      else 0.001
  | None => 0.001
  end.

Definition maxIterations : nat := 30.

(** The [while (iterations < maxIterations)] loop; [remaining] counts
    [maxIterations - iterations]. *)
Fixpoint bisect (remaining : nat) (hue adjustedSaturation targetLuminance tolerance : R)
    (low high mid : R) : string :=
  match remaining with
  | O =>
      let finalRgb := hslToRgb hue adjustedSaturation mid in
      rgbToHex (red finalRgb) (green finalRgb) (blue finalRgb)
  | S remaining' =>
      let rgb := hslToRgb hue adjustedSaturation mid in
      let luminance := calculateLuminance (red rgb) (green rgb) (blue rgb) in
      if ltb (Rabs (luminance - targetLuminance)) tolerance
      then rgbToHex (red rgb) (green rgb) (blue rgb)
      else
        let '(low, high) :=
          if gtb luminance targetLuminance then (low, mid) else (mid, high) in
        bisect remaining' hue adjustedSaturation targetLuminance tolerance
               low high ((low + high) / 2)
  end.

Definition generateColorWithLuminance (hue saturation targetLuminance : R)
    (grade : option Z) : string :=
  let adjustedSaturation :=
    match grade with
    | Some grade => adjustSaturationForPastel saturation targetLuminance grade
    | None => saturation
    end in
  bisect maxIterations hue adjustedSaturation targetLuminance (toleranceFor grade)
         0 1 (initialMid targetLuminance).

(** ** The palette builder *)

Definition targetLuminanceOf (range : GradeRange) : R :=
  if (grade range <=? 20)%Z then rmin range + (rmax range - rmin range) * 0.25
  else if (grade range <=? 40)%Z then rmin range + (rmax range - rmin range) * 0.4
  else (rmin range + rmax range) / 2.

(** The entry one round of the loop of [generatePalette] pushes. *)
Definition paletteEntry (hexColor : string) (inputLuminance : R)
    (inputGradeInfo : GradeInfo) (h s : R) (range : GradeRange) : PaletteEntry :=
  if (grade range =? gi_grade inputGradeInfo)%Z && gi_exact inputGradeInfo
  then mkEntry (grade range) (toUpperCase hexColor) inputLuminance true
  else
    let targetLuminance := targetLuminanceOf range in
    if (grade range =? 0)%Z then mkEntry 0 "#FFFFFF" 1.000 false
    else if (grade range =? 100)%Z then mkEntry 100 "#000000" 0.000 false
    else
      let color := generateColorWithLuminance h s targetLuminance (Some (grade range)) in
      let actualLuminance :=
        match hexToRgb color with
        | Some actualRgb =>
            calculateLuminance (red actualRgb) (green actualRgb) (blue actualRgb)
        | None => 0
        end in
      mkEntry (grade range) color actualLuminance false.

Definition generatePalette (hexColor : string) : PaletteResult :=
  match hexToRgb hexColor with
  | None => mkResult [] (mkInfo 50 false Undefined Undefined)
  | Some rgb =>
      let inputLuminance := calculateLuminance (red rgb) (green rgb) (blue rgb) in
      let inputGradeInfo := determineGrade inputLuminance in
      let hsl := rgbToHsl (red rgb) (green rgb) (blue rgb) in
      let palette :=
        fold_left
          (fun palette range =>
             (palette ++ [paletteEntry hexColor inputLuminance inputGradeInfo
                                       (hue hsl) (sat hsl) range])%list)
          LUMINANCE_RANGES [] in
      mkResult palette inputGradeInfo
  end.

(** * Vocabulary of the statements *)

(** The two digits of a channel. *)
Definition hex2 (x : Z) (rest : string) : string :=
  String (digitChar (x / 16)%Z) (String (digitChar (x mod 16)%Z) rest).

(** The palette entry of a given grade. *)
Definition entryOfGrade (g : Z) (p : list PaletteEntry) : option PaletteEntry :=
  find (fun e => (pe_grade e =? g)%Z) p.

Definition inBand (luminance : R) (range : GradeRange) : Prop :=
  rmin range <= luminance <= rmax range.

Definition midpoint (range : GradeRange) : R := (rmin range + rmax range) / 2.

Definition distance (luminance : R) (range : GradeRange) : R :=
  Rabs (luminance - midpoint range).

(** A hex digit, as the specification words it. *)
Definition isHexDigit (c : ascii) : bool :=
  existsb (Ascii.eqb c) (list_ascii_of_string "0123456789abcdefABCDEF").

Definition sixHexDigits (s : string) : bool :=
  (String.length s =? 6)%nat && forallb isHexDigit (list_ascii_of_string s).

(** A hex colour: an optional ['#'] followed by exactly six hex digits. *)
Definition isHexColor (s : string) : bool :=
  sixHexDigits s
  || match s with
     | String "#" rest => sixHexDigits rest
     | _ => false
     end.

(** The part of [hexToRgb] after the optional ['#']. *)
Definition parseBody (body : string) : option RGB :=
  match body with
  | String c1 (String c2 (String c3 (String c4 (String c5 (String c6 EmptyString))))) =>
      match parseInt16 c1 c2, parseInt16 c3 c4, parseInt16 c5 c6 with
      | Some r, Some g, Some b => Some (mkRGB r g b)
      | _, _, _ => None
      end
  | _ => None
  end.

(** The string starts with ['#']. *)
Definition hasHash (s : string) : bool :=
  match s with
  | String "#" _ => true
  | _ => false
  end.

Definition isUpperHexDigit (c : ascii) : bool :=
  existsb (Ascii.eqb c) (list_ascii_of_string "0123456789ABCDEF").

(** A ['#'] followed by exactly six upper-case hex digits. *)
Definition wellFormedHex (s : string) : bool :=
  match s with
  | String "#" rest =>
      (String.length rest =? 6)%nat
      && forallb isUpperHexDigit (list_ascii_of_string rest)
  | _ => false
  end.

Definition lightnessLuminance (hue saturation mid : R) : R :=
  let rgb := hslToRgb hue saturation mid in
  calculateLuminance (red rgb) (green rgb) (blue rgb).

Definition lightnessColor (hue saturation mid : R) : string :=
  let rgb := hslToRgb hue saturation mid in
  rgbToHex (red rgb) (green rgb) (blue rgb).

(** The luminance at [mid] is within the tolerance of the target. *)
Definition within (hue saturation target tolerance mid : R) : Prop :=
  Rabs (lightnessLuminance hue saturation mid - target) < tolerance.

(** One narrowing of the search interval [(low, high, mid)]. *)
Definition narrow (hue saturation target : R) (st : R * R * R) : R * R * R :=
  let '(low, high, mid) := st in
  if Rlt_dec target (lightnessLuminance hue saturation mid)
  then (low, mid, (low + mid) / 2)
  else (mid, high, (mid + high) / 2).

Definition midOf (st : R * R * R) : R := snd st.

(** The search interval after [k] narrowings. *)
Definition searchState (hue saturation target : R) (k : nat) : R * R * R :=
  Nat.iter k (narrow hue saturation target) (0, 1, initialMid target).

(** ** Binary64 arithmetic

    The luminance computation, with [Math.pow] as a parameter, and the
    classification of a luminance, on IEEE binary64 numbers: sums,
    differences, quotients and comparisons are the rounded ones of the
    program, and the constants of the table are the binary64 numbers
    nearest to their decimal texts. *)

Module Binary64.
Import Floats.
Local Open Scope float_scope.
Local Set Warnings "-inexact-float".

Definition linearChannel (pow : float -> float -> float) (c : float) : float :=
  if c <=? 0.03928 then c / 12.92 else pow ((c + 0.055) / 1.055) 2.4.

Definition calculateLuminance (pow : float -> float -> float) (r g b : float)
    : float :=
  let rsrgb := r / 255 in
  let gsrgb := g / 255 in
  let bsrgb := b / 255 in
  let r1 := linearChannel pow rsrgb in
  let g1 := linearChannel pow gsrgb in
  let b1 := linearChannel pow bsrgb in
  0.2126 * r1 + 0.7152 * g1 + 0.0722 * b1.

(** The test [luminance >= min && luminance <= max] of [determineGrade]. *)
Definition inRange (luminance min max : float) : bool :=
  (min <=? luminance) && (luminance <=? max).

Record GradeRange := mkRange { grade : Z; rmin : float; rmax : float }.

Definition LUMINANCE_RANGES : list GradeRange :=
  [ mkRange 0 1.000 1.000;
    mkRange 5 0.850 0.930;
    mkRange 10 0.750 0.820;
    mkRange 20 0.500 0.650;
    mkRange 30 0.350 0.450;
    mkRange 40 0.225 0.300;
    mkRange 50 0.175 0.183;
    mkRange 60 0.100 0.125;
    mkRange 70 0.050 0.070;
    mkRange 80 0.020 0.040;
    mkRange 90 0.005 0.015;
    mkRange 100 0.000 0.000 ].

(** [Number.MAX_VALUE], the largest binary64 number. *)
Definition Number_MAX_VALUE : float := 0x1.fffffffffffffp+1023.

Fixpoint insertBy {A} (cmp : A -> A -> float) (x : A) (l : list A) : list A :=
  match l with
  | [] => [x]
  | y :: t => if 0 <? cmp y x then x :: y :: t else y :: insertBy cmp x t
  end.

Definition sortBy {A} (cmp : A -> A -> float) (l : list A) : list A :=
  fold_left (fun acc x => insertBy cmp x acc) l [].

Definition sortedRanges : list GradeRange :=
  sortBy (fun a b => rmin b - rmin a) LUMINANCE_RANGES.

Fixpoint scanNeighbors (luminance : float) (prev : option GradeRange)
    (rest : list GradeRange) : Neighbor * Neighbor :=
  match rest with
  | [] => (Null, Null)
  | range :: rest' =>
      if rmin range <? luminance
      then (Grade (grade range),
            match prev with
            | Some p => Grade (grade p)
            | None => Null
            end)
      else scanNeighbors luminance (Some range) rest'
  end.

Definition findNeighboringGrades (luminance : float) : Neighbor * Neighbor :=
  let '(lowerGrade, higherGrade) := scanNeighbors luminance None sortedRanges in
  let lowerGrade :=
    match lowerGrade with
    | Null =>
        match rev sortedRanges with
        | lastRange :: _ => Grade (grade lastRange)
        | [] => Null
        end
    | _ => lowerGrade
    end in
  (lowerGrade, higherGrade).

(** One round of the closest-grade loop of [determineGrade] on the pair
    [(closestGrade, minDifference)]. *)
Definition closerGrade (luminance : float) (acc : Z * float) (range : GradeRange)
    : Z * float :=
  let '(closestGrade, minDifference) := acc in
  let midRange := (rmin range + rmax range) / 2 in
  let difference := abs (luminance - midRange) in
  if difference <? minDifference then (grade range, difference)
  else (closestGrade, minDifference).

Definition determineGrade (luminance : float) : GradeInfo :=
  match find (fun range => (rmin range <=? luminance) && (luminance <=? rmax range))
             LUMINANCE_RANGES with
  | Some range => mkInfo (grade range) true Undefined Undefined
  | None =>
      let '(closestGrade, _) :=
        fold_left (closerGrade luminance) LUMINANCE_RANGES (50%Z, Number_MAX_VALUE) in
      let '(lowerGrade, higherGrade) := findNeighboringGrades luminance in
      mkInfo closestGrade false lowerGrade higherGrade
  end.

(** *** Vocabulary of the statements on binary64 numbers *)

(** The band holds the luminance. *)
Definition inBand (luminance : float) (range : GradeRange) : bool :=
  inRange luminance (rmin range) (rmax range).

Definition midpoint (range : GradeRange) : float := (rmin range + rmax range) / 2.

(** The difference the loop computes for a band. *)
Definition distance (luminance : float) (range : GradeRange) : float :=
  abs (luminance - midpoint range).

(** 0.6799999999999999, a luminance between the bands of grades 10 and
    20 whose differences to their two midpoints round to the same
    number. *)
Definition tiedLuminance : float := 0x1.5c28f5c28f5c2p-1.

(** Not NaN. *)
Definition isNumber (x : spec_float) : bool :=
  match x with
  | S754_nan => false
  | _ => true
  end.

Definition number (x : float) : bool := isNumber (Prim2SF x).

(** [Number.MAX_VALUE] as sign, mantissa and exponent. *)
Definition SFmax : spec_float := S754_finite false 9007199254740991 971.

(** Zero, or a finite number below [2 ^ 1021] in magnitude. *)
Definition small (x : spec_float) : bool :=
  match x with
  | S754_zero _ => true
  | S754_finite _ m e =>
      ((e <=? 969) && (Z.pos (digits2_pos m) + e <=? 1021))%Z
  | _ => false
  end.

End Binary64.

(** * The rest of the module and its callers *)

(** ** Formatting and validating the typed text *)

(** [input.replace(/#/g, '')]. *)
Fixpoint removeHashes (input : string) : string :=
  match input with
  | EmptyString => EmptyString
  | String c rest =>
      if Ascii.eqb c "#" then removeHashes rest else String c (removeHashes rest)
  end.

Definition formatHexInput (input : string) : string :=
  let formattedInput := removeHashes input in
  let formattedInput := String "#" formattedInput in
  toUpperCase formattedInput.

(** The character class [[A-Fa-f0-9]]. *)
Definition hexClass (c : ascii) : bool :=
  let n := N_of_ascii c in
  ((65 <=? n) && (n <=? 70) || (97 <=? n) && (n <=? 102)
   || (48 <=? n) && (n <=? 57))%N.

(** The regular expression [/^#([A-Fa-f0-9]{6})$/]. *)
Definition isValidHex (hex : string) : bool :=
  match hex with
  | String "#"
      (String c1 (String c2 (String c3 (String c4 (String c5 (String c6 EmptyString)))))) =>
      hexClass c1 && hexClass c2 && hexClass c3 && hexClass c4 && hexClass c5
      && hexClass c6
  | _ => false
  end.

Fixpoint repeatChar (n : nat) (c : ascii) : string :=
  match n with
  | O => EmptyString
  | S n' => String c (repeatChar n' c)
  end.

(** [s.padEnd(targetLength, pad)] for a one-character pad. *)
Definition padEnd (s : string) (targetLength : nat) (pad : ascii) : string :=
  (s ++ repeatChar (targetLength - String.length s) pad)%string.

(** Strings of ASCII characters, on which [toUpperCase] is the
    JavaScript one. *)
Definition isAscii (s : string) : bool :=
  forallb (fun c => (N_of_ascii c <? 128)%N) (list_ascii_of_string s).

(** A ['#'] followed by hex digits only: the beginning of a hex colour. *)
Definition partialHex (s : string) : bool :=
  match s with
  | String "#" body => forallb hexClass (list_ascii_of_string body)
  | _ => false
  end.

(** ** The contrast checker *)

Definition checkerRatio (foregroundColor backgroundColor : string) : R :=
  if isValidHex foregroundColor && isValidHex backgroundColor
  then calculateContrastRatio foregroundColor backgroundColor
  else 0.

Record Compliance := mkCompliance {
  aaLargePass : bool;
  aaNormalPass : bool;
  aaaLargePass : bool;
  aaaNormalPass : bool;
  aaNonTextPass : bool
}.

Definition compliance (ratio : R) : Compliance :=
  mkCompliance (geb ratio 3) (geb ratio 4.5) (geb ratio 4.5) (geb ratio 7)
               (geb ratio 3).

(** [color.length >= 7 && !isValidHex(color)]. *)
Definition inputError (color : string) : bool :=
  (7 <=? String.length color)%nat && negb (isValidHex color).

(** ** The palette view *)

(** Number to string, for the integers the table holds. *)
Definition numberText (g : Z) : string := NilZero.string_of_int (Z.to_int g).

(** A neighbour inside a template literal. *)
Definition neighborText (n : Neighbor) : string :=
  match n with
  | Undefined => "undefined"
  | Null => "null"
  | Grade g => numberText g
  end.

(** [n !== null]. *)
Definition notNull (n : Neighbor) : bool :=
  match n with
  | Null => false
  | _ => true
  end.

(** The state the effect on [hexColor] writes. *)
Record ViewState := mkView {
  v_palette : list PaletteEntry;
  v_inputGradeInfo : option GradeInfo;
  v_showError : bool;
  v_showWarning : bool;
  v_warningText : string
}.

Definition warningTextOf (info : GradeInfo) : string :=
  if notNull (gi_lowerGrade info) && notNull (gi_higherGrade info)
  then ("Your color falls between grades " ++ neighborText (gi_lowerGrade info)
        ++ " and " ++ neighborText (gi_higherGrade info)
        ++ ". Using closest grade " ++ numberText (gi_grade info) ++ ".")%string
  else ("Your color doesn't match any exact grade. Using closest grade "
        ++ numberText (gi_grade info) ++ ".")%string.

(** The effect run when [hexColor] changes; [String.length] is
    [hexColor.length] on ASCII texts. *)
Definition updatePalette (hexColor : string) (st : ViewState) : ViewState :=
  if (7 <=? String.length hexColor)%nat && negb (isValidHex hexColor)
  then mkView (v_palette st) (v_inputGradeInfo st) true false (v_warningText st)
  else
    if (4 <=? String.length hexColor)%nat
    then
      let paddedHex := padEnd hexColor 7 "0" in
      let result := generatePalette paddedHex in
      let shouldShowWarning :=
        negb (gi_exact (inputGradeInfo result))
        && (7 <=? String.length hexColor)%nat in
      mkView (palette result) (Some (inputGradeInfo result)) false shouldShowWarning
             (if shouldShowWarning then warningTextOf (inputGradeInfo result)
              else v_warningText st)
    else mkView (v_palette st) (v_inputGradeInfo st) false (v_showWarning st)
                (v_warningText st).

(** [item.grade === inputGradeInfo?.grade]. *)
Definition isActive (item : PaletteEntry) (info : option GradeInfo) : bool :=
  match info with
  | Some info => (pe_grade item =? gi_grade info)%Z
  | None => false
  end.

(** [LUMINANCE_RANGES.find(range => range.grade === item.grade)]. *)
Definition rangeOf (item : PaletteEntry) : option GradeRange :=
  find (fun range => (grade range =? pe_grade item)%Z) LUMINANCE_RANGES.

(** * Properties *)

(** ** Comparisons *)

Lemma leb_true x y : leb x y = true <-> x <= y.
Proof. unfold leb; destruct (Rle_dec x y); split; intros; auto; discriminate. Qed.

Lemma leb_false x y : leb x y = false <-> y < x.
Proof.
  unfold leb; destruct (Rle_dec x y); split; intros; auto; try discriminate; lra.
Qed.

Lemma ltb_true x y : ltb x y = true <-> x < y.
Proof. unfold ltb; destruct (Rlt_dec x y); split; intros; auto; discriminate. Qed.

Lemma ltb_false x y : ltb x y = false <-> y <= x.
Proof.
  unfold ltb; destruct (Rlt_dec x y); split; intros; auto; try discriminate; lra.
Qed.

Lemma eqb_true x y : eqb x y = true <-> x = y.
Proof. unfold eqb; destruct (Req_dec_T x y); split; intros; auto; discriminate. Qed.

Lemma eqb_false x y : eqb x y = false <-> x <> y.
Proof.
  unfold eqb; destruct (Req_dec_T x y); split; intros; auto; try discriminate;
    contradiction.
Qed.

(** Replace every boolean comparison of the context and the goal by the
    order fact it decides. *)
Ltac cmp_cases :=
  repeat match goal with
    | |- context [ltb ?x ?y] =>
        let E := fresh "E" in
        destruct (ltb x y) eqn:E;
        [apply ltb_true in E | apply ltb_false in E]
    | |- context [leb ?x ?y] =>
        let E := fresh "E" in
        destruct (leb x y) eqn:E;
        [apply leb_true in E | apply leb_false in E]
    | |- context [eqb ?x ?y] =>
        let E := fresh "E" in
        destruct (eqb x y) eqn:E;
        [apply eqb_true in E | apply eqb_false in E]
    end.

(** ** Hexadecimal strings *)

Section HexStrings.
Local Open Scope Z_scope.

Lemma toInt32_small z : - 2 ^ 31 <= z < 2 ^ 31 -> toInt32 z = z.
Proof.
  intros H. unfold toInt32. rewrite Z.mod_small; lia.
Qed.

Lemma land_shiftl_low a b k :
  0 <= k -> 0 <= b < 2 ^ k -> Z.land (Z.shiftl a k) b = 0.
Proof.
  intros Hk Hb. apply Z.bits_inj'. intros n Hn.
  rewrite Z.land_spec, Z.bits_0.
  destruct (Z.lt_ge_cases n k) as [Hlt | Hge].
  - rewrite Z.shiftl_spec_low by assumption. reflexivity.
  - destruct (Z.eq_dec b 0) as [-> | Hnz].
    + rewrite Z.bits_0. apply andb_false_r.
    + rewrite (Z.bits_above_log2 b n), andb_false_r; [reflexivity | lia |].
      apply Z.log2_lt_pow2; [lia |].
      apply Z.lt_le_trans with (2 ^ k); [lia |].
      apply Z.pow_le_mono_r; lia.
Qed.

Lemma lor_shiftl_add a b k :
  0 <= k -> 0 <= b < 2 ^ k -> Z.lor (Z.shiftl a k) b = a * 2 ^ k + b.
Proof.
  intros Hk Hb.
  rewrite <- Z.lxor_lor by (apply land_shiftl_low; assumption).
  rewrite <- Z.add_nocarry_lxor by (apply land_shiftl_low; assumption).
  rewrite Z.shiftl_mul_pow2 by assumption. reflexivity.
Qed.

Lemma shl_small x k :
  0 <= k < 32 -> 0 <= x -> x * 2 ^ k < 2 ^ 31 -> shl x k = x * 2 ^ k.
Proof.
  intros Hk Hx Hlt. unfold shl.
  assert (x <= x * 2 ^ k) by nia.
  rewrite Z.mod_small by lia.
  rewrite (toInt32_small x) by lia.
  rewrite Z.shiftl_mul_pow2 by lia.
  apply toInt32_small. lia.
Qed.

Lemma bor_disjoint a b k :
  0 <= k -> 0 <= a -> 0 <= b < 2 ^ k -> a * 2 ^ k + b < 2 ^ 31 ->
  bor (a * 2 ^ k) b = a * 2 ^ k + b.
Proof.
  intros Hk Ha Hb Hlt. unfold bor.
  rewrite (toInt32_small (a * 2 ^ k)), (toInt32_small b) by nia.
  rewrite <- (Z.shiftl_mul_pow2 a k) by assumption.
  rewrite lor_shiftl_add by assumption.
  rewrite Z.shiftl_mul_pow2 by assumption.
  apply toInt32_small. nia.
Qed.

(** More fuel than the bit length never changes the digits. *)
Lemma hexDigits_fuel f :
  forall n acc k, 0 <= n < 2 ^ Z.of_nat (S f) ->
    hexDigits (S f + k) n acc = hexDigits (S f) n acc.
Proof.
  induction f as [| f IH]; intros n acc k Hn.
  - change (2 ^ Z.of_nat 1) with 2 in Hn.
    assert (E : n / 16 = 0) by (apply Z.div_small; lia).
    simpl. rewrite E. reflexivity.
  - change (S (S f) + k)%nat with (S (S f + k)).
    cbn [hexDigits].
    destruct (n / 16 =? 0) eqn:E; [reflexivity |].
    apply IH.
    rewrite Nat2Z.inj_succ, Z.pow_succ_r in Hn by lia.
    split; [apply Z.div_pos; lia |].
    apply Z.div_lt_upper_bound; lia.
Qed.

(** The fuel [toString16] passes is enough. *)
Lemma toString16_fuel n k :
  0 <= n ->
  hexDigits (S (Z.to_nat (Z.log2 n)) + k) n "" = toString16 n.
Proof.
  intros Hn. unfold toString16.
  replace (n <? 0) with false by (symmetry; apply Z.ltb_ge; exact Hn).
  apply hexDigits_fuel.
  rewrite Nat2Z.inj_succ, Z2Nat.id by apply Z.log2_nonneg.
  split; [exact Hn |].
  destruct (Z.eq_dec n 0) as [-> | Hnz]; [reflexivity |].
  apply Z.log2_spec. lia.
Qed.

(** The integer [rgbToHex] prints: [0x1RRGGBB]. *)
Lemma packed_channels r g b :
  0 <= r <= 255 -> 0 <= g <= 255 -> 0 <= b <= 255 ->
  bor (bor (bor (shl 1 24) (shl r 16)) (shl g 8)) b
  = 16777216 + 65536 * r + 256 * g + b.
Proof.
  intros Hr Hg Hb.
  rewrite (shl_small 1 24), (shl_small r 16), (shl_small g 8) by lia.
  rewrite (bor_disjoint 1 (r * 2 ^ 16) 24) by lia.
  replace (1 * 2 ^ 24 + r * 2 ^ 16) with ((256 + r) * 2 ^ 16) by lia.
  rewrite (bor_disjoint (256 + r) (g * 2 ^ 8) 16) by lia.
  replace ((256 + r) * 2 ^ 16 + g * 2 ^ 8)
    with ((65536 + 256 * r + g) * 2 ^ 8) by lia.
  rewrite (bor_disjoint (65536 + 256 * r + g) b 8) by lia.
  lia.
Qed.

Lemma toString16_packed r g b :
  0 <= r <= 255 -> 0 <= g <= 255 -> 0 <= b <= 255 ->
  toString16 (16777216 + 65536 * r + 256 * g + b)
  = String "1" (hex2 r (hex2 g (hex2 b ""))).
Proof.
  intros Hr Hg Hb. unfold toString16.
  set (n := 16777216 + 65536 * r + 256 * g + b).
  assert (Hn : 2 ^ 24 <= n < 2 ^ 25) by (unfold n; lia).
  replace (n <? 0) with false by (symmetry; apply Z.ltb_ge; lia).
  replace (Z.log2 n) with 24
    by (symmetry; apply Z.log2_unique; [lia | exact Hn]).
  change (S (Z.to_nat 24)) with 25%nat.
  assert (D1 : n / 16 = 1048576 + 4096 * r + 16 * g + b / 16)
    by (unfold n; Z.div_mod_to_equations; lia).
  assert (M1 : n mod 16 = b mod 16)
    by (unfold n; Z.div_mod_to_equations; lia).
  assert (D2 : (1048576 + 4096 * r + 16 * g + b / 16) / 16 = 65536 + 256 * r + g)
    by (Z.div_mod_to_equations; lia).
  assert (M2 : (1048576 + 4096 * r + 16 * g + b / 16) mod 16 = b / 16)
    by (Z.div_mod_to_equations; lia).
  assert (D3 : (65536 + 256 * r + g) / 16 = 4096 + 16 * r + g / 16)
    by (Z.div_mod_to_equations; lia).
  assert (M3 : (65536 + 256 * r + g) mod 16 = g mod 16)
    by (Z.div_mod_to_equations; lia).
  assert (D4 : (4096 + 16 * r + g / 16) / 16 = 256 + r)
    by (Z.div_mod_to_equations; lia).
  assert (M4 : (4096 + 16 * r + g / 16) mod 16 = g / 16)
    by (Z.div_mod_to_equations; lia).
  assert (D5 : (256 + r) / 16 = 16 + r / 16)
    by (Z.div_mod_to_equations; lia).
  assert (M5 : (256 + r) mod 16 = r mod 16)
    by (Z.div_mod_to_equations; lia).
  assert (D6 : (16 + r / 16) / 16 = 1) by (Z.div_mod_to_equations; lia).
  assert (M6 : (16 + r / 16) mod 16 = r / 16)
    by (Z.div_mod_to_equations; lia).
  assert (N1 : (n / 16 =? 0) = false)
    by (apply Z.eqb_neq; rewrite D1; Z.div_mod_to_equations; lia).
  assert (N2 : (65536 + 256 * r + g =? 0) = false) by (apply Z.eqb_neq; lia).
  assert (N3 : (4096 + 16 * r + g / 16 =? 0) = false)
    by (apply Z.eqb_neq; Z.div_mod_to_equations; lia).
  assert (N4 : (256 + r =? 0) = false) by (apply Z.eqb_neq; lia).
  assert (N5 : (16 + r / 16 =? 0) = false)
    by (apply Z.eqb_neq; Z.div_mod_to_equations; lia).
  cbn [hexDigits].
  rewrite N1, M1, D1. rewrite D2, N2, M2. rewrite D3, N3, M3.
  rewrite D4, N4, M4. rewrite D5, N5, M5. rewrite D6, M6.
  reflexivity.
Qed.

Lemma hexVal_digit d :
  0 <= d <= 15 -> hexVal (upperChar (digitChar d)) = Some d.
Proof.
  intros H.
  assert (C : d = 0 \/ d = 1 \/ d = 2 \/ d = 3 \/ d = 4 \/ d = 5 \/ d = 6
              \/ d = 7 \/ d = 8 \/ d = 9 \/ d = 10 \/ d = 11 \/ d = 12
              \/ d = 13 \/ d = 14 \/ d = 15) by lia.
  repeat (destruct C as [-> | C]; [reflexivity |]). subst d. reflexivity.
Qed.

Lemma parseInt16_hex2 x :
  0 <= x <= 255 ->
  parseInt16 (upperChar (digitChar (x / 16))) (upperChar (digitChar (x mod 16)))
  = Some x.
Proof.
  intros H. unfold parseInt16.
  rewrite !hexVal_digit by (Z.div_mod_to_equations; lia).
  f_equal. Z.div_mod_to_equations; lia.
Qed.

(** The string [rgbToHex] builds, digit by digit. *)
Lemma rgbToHex_digits r g b :
  0 <= r <= 255 -> 0 <= g <= 255 -> 0 <= b <= 255 ->
  rgbToHex r g b = String "#" (toUpperCase (hex2 r (hex2 g (hex2 b "")))).
Proof.
  intros Hr Hg Hb. unfold rgbToHex.
  rewrite packed_channels, toString16_packed by assumption.
  reflexivity.
Qed.

End HexStrings.

Example rgbToHex_sample : rgbToHex 123 196 232 = "#7BC4E8".
Proof. reflexivity. Qed.

Example hexToRgb_lower_case : hexToRgb "7bc4e8" = Some (mkRGB 123 196 232).
Proof. reflexivity. Qed.

Example hexToRgb_short : hexToRgb "#7BC4E" = None.
Proof. reflexivity. Qed.

Example hexToRgb_two_hashes : hexToRgb "##7BC4E8" = None.
Proof. reflexivity. Qed.

Example toString16_sample : toString16 255 = "ff" /\ toString16 (-255) = "-ff".
Proof. split; reflexivity. Qed.

(** C7: on integer channels in [0,255], [hexToRgb] parses what
    [rgbToHex] prints back to the same three channels. *)
Theorem hexToRgb_rgbToHex (r g b : Z) :
  (0 <= r <= 255)%Z -> (0 <= g <= 255)%Z -> (0 <= b <= 255)%Z ->
  hexToRgb (rgbToHex r g b) = Some (mkRGB r g b).
Proof.
  intros Hr Hg Hb.
  rewrite rgbToHex_digits by assumption.
  unfold hex2. cbn [toUpperCase hexToRgb].
  rewrite !parseInt16_hex2 by assumption.
  reflexivity.
Qed.

Lemma hexToRgb_rgbToHex_witness :
  hexToRgb (rgbToHex 123 196 232) = Some (mkRGB 123 196 232).
Proof. apply hexToRgb_rgbToHex; lia. Defined.

(** ** Luminance *)

Lemma Math_pow_one y : Math_pow 1 y = 1.
Proof.
  unfold Math_pow. destruct (Req_dec_T 1 0) as [E | _]; [lra |].
  unfold Rpower. rewrite ln_1, Rmult_0_r. apply exp_0.
Qed.

Lemma Math_pow_pos x y : 0 < x -> 0 < Math_pow x y.
Proof.
  intros H. unfold Math_pow. destruct (Req_dec_T x 0) as [E | _]; [lra |].
  unfold Rpower. apply exp_pos.
Qed.

Lemma Math_pow_lt_one x y : 0 < x < 1 -> 0 < y -> Math_pow x y < 1.
Proof.
  intros Hx Hy. unfold Math_pow. destruct (Req_dec_T x 0) as [E | _]; [lra |].
  unfold Rpower. rewrite <- exp_0. apply exp_increasing.
  assert (L : ln x < 0) by (rewrite <- ln_1; apply ln_increasing; lra).
  nra.
Qed.

Lemma linearChannel_zero : linearChannel 0 = 0.
Proof.
  unfold linearChannel.
  replace (leb 0 0.03928) with true by (symmetry; apply leb_true; lra).
  lra.
Qed.

Lemma linearChannel_one : linearChannel 1 = 1.
Proof.
  unfold linearChannel.
  replace (leb 1 0.03928) with false by (symmetry; apply leb_false; lra).
  replace ((1 + 0.055) / 1.055) with 1 by lra.
  apply Math_pow_one.
Qed.

(** The transform maps [0,1] into [0,1] and reaches the two ends only
    at the two ends. *)
Lemma linearChannel_range c :
  0 <= c <= 1 ->
  0 <= linearChannel c <= 1
  /\ (linearChannel c = 0 -> c = 0) /\ (linearChannel c = 1 -> c = 1).
Proof.
  intros Hc. unfold linearChannel.
  destruct (leb c 0.03928) eqn:E.
  - apply leb_true in E. repeat split; intros; lra.
  - apply leb_false in E.
    assert (P : 0 < Math_pow ((c + 0.055) / 1.055) 2.4)
      by (apply Math_pow_pos; apply Rdiv_lt_0_compat; lra).
    destruct (Req_dec_T c 1) as [-> | Hne].
    + replace ((1 + 0.055) / 1.055) with 1 by lra.
      rewrite Math_pow_one. repeat split; intros; lra.
    + assert (Q : Math_pow ((c + 0.055) / 1.055) 2.4 < 1).
      { apply Math_pow_lt_one; [| lra].
        split; [apply Rdiv_lt_0_compat; lra |].
        apply Rmult_lt_reg_r with 1.055; [lra |].
        unfold Rdiv. rewrite Rmult_assoc, Rinv_l by lra. lra. }
      repeat split; intros; lra.
Qed.

Lemma channel_unit c : (0 <= c <= 255)%Z -> 0 <= IZR c / 255 <= 1.
Proof.
  intros [H0 H1]. apply IZR_le in H0, H1. lra.
Qed.

Lemma calculateLuminance_white : calculateLuminance 255 255 255 = 1.
Proof.
  unfold calculateLuminance.
  replace (255 / 255) with 1 by lra.
  rewrite linearChannel_one. lra.
Qed.

Lemma calculateLuminance_black : calculateLuminance 0 0 0 = 0.
Proof.
  unfold calculateLuminance.
  replace (0 / 255) with 0 by lra.
  rewrite linearChannel_zero. lra.
Qed.

(** Luminance lies in [0,1]; only white has luminance 1 and only black
    has luminance 0. *)
Lemma calculateLuminance_range r g b :
  (0 <= r <= 255)%Z -> (0 <= g <= 255)%Z -> (0 <= b <= 255)%Z ->
  0 <= calculateLuminance r g b <= 1
  /\ (calculateLuminance r g b = 1 -> r = 255%Z /\ g = 255%Z /\ b = 255%Z)
  /\ (calculateLuminance r g b = 0 -> r = 0%Z /\ g = 0%Z /\ b = 0%Z).
Proof.
  intros Hr Hg Hb. unfold calculateLuminance.
  destruct (linearChannel_range _ (channel_unit r Hr)) as (Rr & Rr0 & Rr1).
  destruct (linearChannel_range _ (channel_unit g Hg)) as (Rg & Rg0 & Rg1).
  destruct (linearChannel_range _ (channel_unit b Hb)) as (Rb & Rb0 & Rb1).
  assert (U : forall c : Z, IZR c / 255 = 1 -> c = 255%Z)
    by (intros c Hc; apply eq_IZR; lra).
  assert (Z0 : forall c : Z, IZR c / 255 = 0 -> c = 0%Z)
    by (intros c Hc; apply eq_IZR; lra).
  split; [lra |]. split; intros E.
  - repeat split; apply U; [apply Rr1 | apply Rg1 | apply Rb1]; lra.
  - repeat split; apply Z0; [apply Rr0 | apply Rg0 | apply Rb0]; lra.
Qed.

(** ** The grade table *)

(** Settle the first comparison of the goal between two known numbers. *)
Ltac settle_cmp :=
  match goal with
  | |- context [ltb ?a ?b] =>
      first [ replace (ltb a b) with true by (symmetry; apply ltb_true; lra)
            | replace (ltb a b) with false by (symmetry; apply ltb_false; lra) ]
  | |- context [leb ?a ?b] =>
      first [ replace (leb a b) with true by (symmetry; apply leb_true; lra)
            | replace (leb a b) with false by (symmetry; apply leb_false; lra) ]
  end.

(** The table is already ordered by descending [min], so sorting it
    changes nothing. *)
Lemma sortedRanges_table : sortedRanges = LUMINANCE_RANGES.
Proof.
  unfold sortedRanges, sortBy, LUMINANCE_RANGES, gtb.
  cbn [fold_left insertBy rmin gtb].
  repeat (unfold gtb; settle_cmp; cbn [insertBy rmin]).
  reflexivity.
Qed.

Lemma Number_MAX_VALUE_large : 2 < Number_MAX_VALUE.
Proof.
  unfold Number_MAX_VALUE. apply IZR_lt. reflexivity.
Qed.

Lemma determineGrade_white : determineGrade 1 = mkInfo 0 true Undefined Undefined.
Proof.
  unfold determineGrade, LUMINANCE_RANGES, geb. cbn [find rmin rmax].
  repeat settle_cmp. reflexivity.
Qed.

Lemma determineGrade_black : determineGrade 0 = mkInfo 100 true Undefined Undefined.
Proof.
  unfold determineGrade, LUMINANCE_RANGES, geb. cbn [find rmin rmax andb].
  repeat (settle_cmp; cbn [andb]). reflexivity.
Qed.

(** ** Shape of the palette *)

Lemma fold_push_map {A B} (f : A -> B) (l : list A) (acc : list B) :
  fold_left (fun p x => (p ++ [f x])%list) l acc = (acc ++ map f l)%list.
Proof.
  revert acc. induction l as [| x l IH]; intros acc; cbn [fold_left map].
  - symmetry. apply app_nil_r.
  - rewrite IH, <- app_assoc. reflexivity.
Qed.

Lemma find_map {A B} (P : B -> bool) (f : A -> B) (l : list A) :
  find P (map f l) = option_map f (find (fun x => P (f x)) l).
Proof.
  induction l as [| x l IH]; cbn [map find option_map]; [reflexivity |].
  destruct (P (f x)); [reflexivity | exact IH].
Qed.

Lemma find_ext {A} (P Q : A -> bool) (l : list A) :
  (forall x, P x = Q x) -> find P l = find Q l.
Proof.
  intros E. induction l as [| x l IH]; cbn [find]; [reflexivity |].
  rewrite E, IH. reflexivity.
Qed.

Section Palette.
Variables (hexColor : string) (inputLuminance : R) (info : GradeInfo) (h s : R).

Let entry := paletteEntry hexColor inputLuminance info h s.

Lemma paletteEntry_grade range : pe_grade (entry range) = grade range.
Proof.
  unfold entry, paletteEntry.
  destruct ((grade range =? gi_grade info)%Z && gi_exact info); [reflexivity |].
  destruct (Z.eqb_spec (grade range) 0) as [E | _]; [symmetry; exact E |].
  destruct (Z.eqb_spec (grade range) 100) as [E | _]; [symmetry; exact E |].
  reflexivity.
Qed.

Lemma paletteEntry_isInputColor range :
  pe_isInputColor (entry range)
  = ((grade range =? gi_grade info)%Z && gi_exact info)%bool.
Proof.
  unfold entry, paletteEntry.
  destruct ((grade range =? gi_grade info)%Z && gi_exact info); [reflexivity |].
  destruct (grade range =? 0)%Z; [reflexivity |].
  destruct (grade range =? 100)%Z; reflexivity.
Qed.

Lemma entryOfGrade_map g :
  entryOfGrade g (map entry LUMINANCE_RANGES)
  = option_map entry (find (fun range => (grade range =? g)%Z) LUMINANCE_RANGES).
Proof.
  unfold entryOfGrade. rewrite find_map. f_equal.
  apply find_ext. intros range. rewrite paletteEntry_grade. reflexivity.
Qed.

(** At most one band carries a given grade. *)
Lemma one_band_per_grade g e :
  (List.length (filter (fun range => (grade range =? g)%Z && e) LUMINANCE_RANGES)
   <= 1)%nat.
Proof.
  destruct e.
  - unfold LUMINANCE_RANGES. cbn [filter grade].
    repeat match goal with
      | |- context [(?c =? g)%Z] =>
          destruct (Z.eqb_spec c g) as [<- | _]; [cbn; lia |]
      end.
    cbn. lia.
  - replace (filter (fun range => (grade range =? g)%Z && false) LUMINANCE_RANGES)
      with (@nil GradeRange); [cbn; lia |].
    induction LUMINANCE_RANGES as [| x l IH]; cbn [filter]; [reflexivity |].
    rewrite andb_false_r. exact IH.
Qed.

End Palette.

Lemma generatePalette_valid hexColor rgb :
  hexToRgb hexColor = Some rgb ->
  generatePalette hexColor
  = let inputLuminance := calculateLuminance (red rgb) (green rgb) (blue rgb) in
    let hsl := rgbToHsl (red rgb) (green rgb) (blue rgb) in
    mkResult
      (map (paletteEntry hexColor inputLuminance (determineGrade inputLuminance)
                         (hue hsl) (sat hsl))
           LUMINANCE_RANGES)
      (determineGrade inputLuminance).
Proof.
  intros E. unfold generatePalette. rewrite E. cbv zeta.
  rewrite fold_push_map. reflexivity.
Qed.

Lemma filter_map_comm {A B} (P : B -> bool) (f : A -> B) (l : list A) :
  filter P (map f l) = map f (filter (fun x => P (f x)) l).
Proof.
  induction l as [| x l IH]; cbn [map filter]; [reflexivity |].
  destruct (P (f x)); cbn [map]; rewrite IH; reflexivity.
Qed.

(** C1 (as amended): for an input that [hexToRgb] accepts the palette
    has exactly 12 entries, their grades are 0, 5, 10, 20, ..., 100 in
    this order, and at most one entry is marked as the input colour;
    for an input that [hexToRgb] rejects the palette is empty. *)
Theorem generatePalette_shape (hexColor : string) :
  let p := palette (generatePalette hexColor) in
  (hexToRgb hexColor = None -> p = [])
  /\ (hexToRgb hexColor <> None ->
      List.length p = 12%nat
      /\ map pe_grade p = [0; 5; 10; 20; 30; 40; 50; 60; 70; 80; 90; 100]%Z
      /\ map pe_grade p = GRADES
      /\ (List.length (filter pe_isInputColor p) <= 1)%nat).
Proof.
  cbv zeta. split.
  - intros E. unfold generatePalette. rewrite E. reflexivity.
  - intros H. destruct (hexToRgb hexColor) as [rgb |] eqn:E; [| contradiction].
    rewrite (generatePalette_valid _ _ E). cbv zeta. cbn [palette].
    set (lum := calculateLuminance _ _ _).
    set (hsl := rgbToHsl _ _ _).
    assert (G : map pe_grade
                  (map (paletteEntry hexColor lum (determineGrade lum)
                                     (hue hsl) (sat hsl)) LUMINANCE_RANGES)
                = [0; 5; 10; 20; 30; 40; 50; 60; 70; 80; 90; 100]%Z).
    { rewrite map_map.
      rewrite (map_ext _ grade) by (intros r; apply paletteEntry_grade).
      reflexivity. }
    split; [| split; [| split]].
    + rewrite length_map. reflexivity.
    + exact G.
    + exact G.
    + rewrite filter_map_comm, length_map.
      rewrite (filter_ext _ (fun range =>
                 (grade range =? gi_grade (determineGrade lum))%Z
                 && gi_exact (determineGrade lum)))
        by (intros r; apply paletteEntry_isInputColor).
      apply one_band_per_grade.
Qed.

Lemma generatePalette_shape_witness :
  let p := palette (generatePalette "#7BC4E8") in
  List.length p = 12%nat
  /\ map pe_grade p = [0; 5; 10; 20; 30; 40; 50; 60; 70; 80; 90; 100]%Z
  /\ map pe_grade p = GRADES
  /\ (List.length (filter pe_isInputColor p) <= 1)%nat.
Proof. apply (generatePalette_shape "#7BC4E8"). discriminate. Defined.

(** C1 (as stated) fails on a string that is not a hex colour, such as
    the padded partial input ["#GGG000"]: the palette is empty. *)
Lemma generatePalette_invalid_empty :
  hexToRgb "#GGG000" = None
  /\ palette (generatePalette "#GGG000") = []
  /\ List.length (palette (generatePalette "#GGG000")) <> 12%nat.
Proof.
  repeat split. cbn. discriminate.
Qed.

(** C6: white and black are exact matches of grades 0 and 100: their
    luminances are 1 and 0, and the palettes of ["#FFFFFF"] and
    ["#000000"] carry the input colour at grade 0 and grade 100. *)
Theorem white_black_exact :
  calculateLuminance 255 255 255 = 1
  /\ calculateLuminance 0 0 0 = 0
  /\ inputGradeInfo (generatePalette "#FFFFFF") = mkInfo 0 true Undefined Undefined
  /\ inputGradeInfo (generatePalette "#000000") = mkInfo 100 true Undefined Undefined
  /\ entryOfGrade 0 (palette (generatePalette "#FFFFFF"))
     = Some (mkEntry 0 "#FFFFFF" 1 true)
  /\ entryOfGrade 100 (palette (generatePalette "#000000"))
     = Some (mkEntry 100 "#000000" 0 true).
Proof.
  assert (W : hexToRgb "#FFFFFF" = Some (mkRGB 255 255 255)) by reflexivity.
  assert (B : hexToRgb "#000000" = Some (mkRGB 0 0 0)) by reflexivity.
  rewrite (generatePalette_valid _ _ W), (generatePalette_valid _ _ B).
  cbv zeta. cbn [red green blue palette inputGradeInfo].
  rewrite calculateLuminance_white, calculateLuminance_black.
  rewrite determineGrade_white, determineGrade_black.
  rewrite !entryOfGrade_map.
  repeat split.
Qed.

(** ** Classification of a luminance over the reals *)

Lemma inBand_test luminance range :
  geb luminance (rmin range) && leb luminance (rmax range) = true
  <-> inBand luminance range.
Proof.
  unfold inBand, geb. rewrite andb_true_iff, !leb_true. tauto.
Qed.

(** No luminance lies in two bands of the table. *)
Lemma bands_disjoint luminance r r' :
  In r LUMINANCE_RANGES -> In r' LUMINANCE_RANGES ->
  inBand luminance r -> inBand luminance r' -> r = r'.
Proof.
  unfold LUMINANCE_RANGES, inBand. cbn [In]. intros H H' B B'.
  repeat (destruct H as [<- | H]); try contradiction;
    cbn [rmin rmax] in B;
    repeat (destruct H' as [<- | H']); try contradiction;
    cbn [rmin rmax] in B'; first [reflexivity | exfalso; lra].
Qed.

(** What the closest-grade loop computes on any list of bands, from any
    starting pair: either nothing beats the starting difference, or the
    result is the first band of least distance. *)
Lemma closest_fold luminance (l : list GradeRange) (g0 : Z) (d0 : R) :
  let res := fold_left (closerGrade luminance) l (g0, d0) in
  (res = (g0, d0) /\ forall r, In r l -> d0 <= distance luminance r)
  \/ (exists i r,
        nth_error l i = Some r
        /\ res = (grade r, distance luminance r)
        /\ distance luminance r < d0
        /\ (forall r', In r' l -> distance luminance r <= distance luminance r')
        /\ (forall j r', (j < i)%nat -> nth_error l j = Some r' ->
                         distance luminance r < distance luminance r')).
Proof.
  cbv zeta. induction l as [| x l IH] using rev_ind.
  - left. split; [reflexivity | intros r []].
  - rewrite fold_left_app. cbn [fold_left].
    destruct IH as [[E A] | (i & r & N & E & D & A & F)]; rewrite E;
      unfold closerGrade; fold (midpoint x); fold (distance luminance x);
      destruct (ltb (distance luminance x) _) eqn:C;
      [apply ltb_true in C | apply ltb_false in C
      | apply ltb_true in C | apply ltb_false in C].
    + right. exists (List.length l), x. repeat split.
      * rewrite nth_error_app2, Nat.sub_diag by lia. reflexivity.
      * exact C.
      * intros r' Hin. apply in_app_or in Hin. destruct Hin as [Hin | [<- | []]].
        -- specialize (A r' Hin). lra.
        -- lra.
      * intros j r' Hj Hn. rewrite nth_error_app1 in Hn by exact Hj.
        apply nth_error_In in Hn. specialize (A r' Hn). lra.
    + left. split; [reflexivity |].
      intros r' Hin. apply in_app_or in Hin. destruct Hin as [Hin | [<- | []]].
      * apply A, Hin.
      * exact C.
    + right. exists (List.length l), x. repeat split.
      * rewrite nth_error_app2, Nat.sub_diag by lia. reflexivity.
      * lra.
      * intros r' Hin. apply in_app_or in Hin. destruct Hin as [Hin | [<- | []]].
        -- specialize (A r' Hin). lra.
        -- lra.
      * intros j r' Hj Hn. rewrite nth_error_app1 in Hn by exact Hj.
        apply nth_error_In in Hn. specialize (A r' Hn). lra.
    + right. exists i, r.
      assert (Hi : (i < List.length l)%nat)
        by (apply nth_error_Some; rewrite N; discriminate).
      repeat split.
      * rewrite nth_error_app1 by exact Hi. exact N.
      * exact D.
      * intros r' Hin. apply in_app_or in Hin. destruct Hin as [Hin | [<- | []]].
        -- apply A, Hin.
        -- exact C.
      * intros j r' Hj Hn. rewrite nth_error_app1 in Hn by lia.
        apply (F j r' Hj Hn).
Qed.

(** ** Neighbouring grades *)

(** For a luminance strictly between 0 and 1 the scan stops at a band
    that has a lighter predecessor. *)
Lemma scanNeighbors_inside (luminance : R) :
  0 < luminance < 1 ->
  exists lo hi, scanNeighbors luminance None sortedRanges = (Grade lo, Grade hi).
Proof.
  intros H. rewrite sortedRanges_table.
  unfold LUMINANCE_RANGES. cbn [scanNeighbors rmin grade]. unfold gtb.
  repeat match goal with
    | |- context [ltb ?a luminance] =>
        let E := fresh "E" in
        destruct (ltb a luminance) eqn:E;
        [apply ltb_true in E; try (exfalso; lra);
         try (do 2 eexists; reflexivity)
        | apply ltb_false in E]
    end.
  exfalso; lra.
Qed.

(** C10: for a luminance strictly between 0 and 1, [findNeighboringGrades]
    finds both neighbours in its scan, so an inexact classification
    carries a lower and a higher grade, neither of them null. *)
Theorem neighbors_not_null (luminance : R) :
  0 < luminance < 1 ->
  (exists lo hi,
     scanNeighbors luminance None sortedRanges = (Grade lo, Grade hi)
     /\ findNeighboringGrades luminance = (Grade lo, Grade hi))
  /\ (gi_exact (determineGrade luminance) = false ->
      exists lo hi,
        gi_lowerGrade (determineGrade luminance) = Grade lo
        /\ gi_higherGrade (determineGrade luminance) = Grade hi).
Proof.
  intros H. destruct (scanNeighbors_inside luminance H) as (lo & hi & S).
  assert (N : findNeighboringGrades luminance = (Grade lo, Grade hi))
    by (unfold findNeighboringGrades; rewrite S; reflexivity).
  split.
  - exists lo, hi. split; assumption.
  - unfold determineGrade.
    destruct (find _ LUMINANCE_RANGES) as [r0 |]; [discriminate |].
    destruct (fold_left _ _ _) as [closest d]. rewrite N.
    cbn [gi_lowerGrade gi_higherGrade]. intros _.
    exists lo, hi. split; reflexivity.
Qed.

Lemma neighbors_not_null_witness :
  (exists lo hi,
     scanNeighbors 0.7 None sortedRanges = (Grade lo, Grade hi)
     /\ findNeighboringGrades 0.7 = (Grade lo, Grade hi))
  /\ (gi_exact (determineGrade 0.7) = false ->
      exists lo hi,
        gi_lowerGrade (determineGrade 0.7) = Grade lo
        /\ gi_higherGrade (determineGrade 0.7) = Grade hi).
Proof. apply neighbors_not_null. lra. Defined.

(** ** Contrast ratio *)

Lemma hexVal_isHexDigit c :
  isHexDigit c = match hexVal c with Some _ => true | None => false end.
Proof.
  destruct c as [[] [] [] [] [] [] [] []]; reflexivity.
Qed.

Lemma hexVal_range c v : hexVal c = Some v -> (0 <= v <= 15)%Z.
Proof.
  unfold hexVal.
  repeat match goal with
    | |- context [if ?b then _ else _] => destruct b eqn:?
    end; intros E; inversion E; subst; lia.
Qed.

Lemma parseBody_digits body :
  parseBody body <> None <-> sixHexDigits body = true.
Proof.
  unfold sixHexDigits.
  destruct body as [| c1 [| c2 [| c3 [| c4 [| c5 [| c6 [| c7 body]]]]]]];
    cbn [parseBody String.length Nat.eqb andb list_ascii_of_string forallb];
    try (split; [intros H; now contradiction H | discriminate]).
  unfold parseInt16. rewrite !hexVal_isHexDigit.
  destruct (hexVal c1), (hexVal c2), (hexVal c3), (hexVal c4), (hexVal c5),
    (hexVal c6); cbn [andb]; split; intros H; try discriminate;
    try (contradiction H; reflexivity); reflexivity.
Qed.

Lemma hexToRgb_parseBody_hash rest : hexToRgb (String "#" rest) = parseBody rest.
Proof. reflexivity. Qed.

Lemma hexToRgb_accepts s : hexToRgb s <> None <-> isHexColor s = true.
Proof.
  unfold isHexColor. destruct s as [| c rest].
  - cbn. split; [intros H; now contradiction H | discriminate].
  - destruct (Ascii.eqb_spec c "#") as [-> | Hc].
    + rewrite hexToRgb_parseBody_hash, parseBody_digits.
      replace (sixHexDigits (String "#" rest)) with false; [reflexivity |].
      unfold sixHexDigits. cbn [list_ascii_of_string forallb].
      replace (isHexDigit "#") with false by reflexivity.
      cbn [andb]. symmetry. apply andb_false_r.
    + replace (hexToRgb (String c rest)) with (parseBody (String c rest)).
      * rewrite parseBody_digits.
        replace (match c with
                 | "#"%char => sixHexDigits rest
                 | _ => false
                 end) with false; [rewrite orb_false_r; reflexivity |].
        destruct c as [[] [] [] [] [] [] [] []]; try reflexivity.
        contradiction Hc; reflexivity.
      * destruct c as [[] [] [] [] [] [] [] []]; try reflexivity.
        contradiction Hc; reflexivity.
Qed.

(** C8: the contrast ratio is 1 as soon as one of the two strings is not
    a hex colour; for two hex colours it is the lighter luminance plus
    0.05 over the darker luminance plus 0.05. *)
Theorem calculateContrastRatio_spec (color1 color2 : string) :
  (isHexColor color1 = false \/ isHexColor color2 = false ->
   calculateContrastRatio color1 color2 = 1)
  /\ (isHexColor color1 = true -> isHexColor color2 = true ->
      exists rgb1 rgb2,
        hexToRgb color1 = Some rgb1 /\ hexToRgb color2 = Some rgb2
        /\ let l1 := calculateLuminance (red rgb1) (green rgb1) (blue rgb1) in
           let l2 := calculateLuminance (red rgb2) (green rgb2) (blue rgb2) in
           calculateContrastRatio color1 color2
           = (Rmax l1 l2 + 0.05) / (Rmin l1 l2 + 0.05)).
Proof.
  pose proof (hexToRgb_accepts color1) as A1.
  pose proof (hexToRgb_accepts color2) as A2.
  unfold calculateContrastRatio.
  destruct (hexToRgb color1) as [rgb1 |], (hexToRgb color2) as [rgb2 |];
    split; intros H; try intros H'.
  all: try (exists rgb1, rgb2; repeat split; reflexivity).
  all: try reflexivity.
  all: try (exfalso; apply A1 in H; apply H; reflexivity).
  all: try (exfalso; apply A2 in H'; apply H'; reflexivity).
  exfalso. destruct H as [H | H]; rewrite H in *;
    [destruct A1 as [A1 _]; specialize (A1 ltac:(discriminate))
    | destruct A2 as [A2 _]; specialize (A2 ltac:(discriminate))];
    discriminate.
Qed.

(** ** The two fixed ends of the palette *)

Lemma hexVal_max c : hexVal c = Some 15%Z -> upperChar c = "F"%char.
Proof.
  destruct c as [[] [] [] [] [] [] [] []]; cbv; intros E;
    first [reflexivity | discriminate E].
Qed.

Lemma hexVal_min c : hexVal c = Some 0%Z -> upperChar c = "0"%char.
Proof.
  destruct c as [[] [] [] [] [] [] [] []]; cbv; intros E;
    first [reflexivity | discriminate E].
Qed.

Lemma parseInt16_range c1 c2 v : parseInt16 c1 c2 = Some v -> (0 <= v <= 255)%Z.
Proof.
  unfold parseInt16.
  destruct (hexVal c1) as [h |] eqn:E1; [| discriminate].
  destruct (hexVal c2) as [l |] eqn:E2; [| discriminate].
  apply hexVal_range in E1, E2. intros E.
  assert (E' : (16 * h + l)%Z = v) by congruence. lia.
Qed.

Lemma parseInt16_max c1 c2 :
  parseInt16 c1 c2 = Some 255%Z ->
  upperChar c1 = "F"%char /\ upperChar c2 = "F"%char.
Proof.
  unfold parseInt16.
  destruct (hexVal c1) as [h |] eqn:E1; [| discriminate].
  destruct (hexVal c2) as [l |] eqn:E2; [| discriminate].
  pose proof (hexVal_range _ _ E1). pose proof (hexVal_range _ _ E2).
  intros E. assert (E' : (16 * h + l)%Z = 255%Z) by congruence.
  assert (h = 15%Z) by lia. assert (l = 15%Z) by lia. subst.
  split; apply hexVal_max; assumption.
Qed.

Lemma parseInt16_min c1 c2 :
  parseInt16 c1 c2 = Some 0%Z ->
  upperChar c1 = "0"%char /\ upperChar c2 = "0"%char.
Proof.
  unfold parseInt16.
  destruct (hexVal c1) as [h |] eqn:E1; [| discriminate].
  destruct (hexVal c2) as [l |] eqn:E2; [| discriminate].
  pose proof (hexVal_range _ _ E1). pose proof (hexVal_range _ _ E2).
  intros E. assert (E' : (16 * h + l)%Z = 0%Z) by congruence.
  assert (h = 0%Z) by lia. assert (l = 0%Z) by lia. subst.
  split; apply hexVal_min; assumption.
Qed.

(** What [parseBody] accepts, with the channels it returns. *)
Lemma parseBody_inv body rgb :
  parseBody body = Some rgb ->
  exists c1 c2 c3 c4 c5 c6,
    body = String c1 (String c2 (String c3 (String c4 (String c5 (String c6 "")))))
    /\ parseInt16 c1 c2 = Some (red rgb)
    /\ parseInt16 c3 c4 = Some (green rgb)
    /\ parseInt16 c5 c6 = Some (blue rgb).
Proof.
  destruct body as [| c1 [| c2 [| c3 [| c4 [| c5 [| c6 [| c7 body]]]]]]];
    cbn [parseBody]; try discriminate.
  destruct (parseInt16 c1 c2) as [r |] eqn:R; [| discriminate].
  destruct (parseInt16 c3 c4) as [g |] eqn:G; [| discriminate].
  destruct (parseInt16 c5 c6) as [b |] eqn:B; [| discriminate].
  intros E. inversion E. cbn [red green blue].
  exists c1, c2, c3, c4, c5, c6. repeat split; assumption.
Qed.

Lemma parseBody_range body rgb :
  parseBody body = Some rgb ->
  (0 <= red rgb <= 255)%Z /\ (0 <= green rgb <= 255)%Z /\ (0 <= blue rgb <= 255)%Z.
Proof.
  intros E. apply parseBody_inv in E.
  destruct E as (c1 & c2 & c3 & c4 & c5 & c6 & _ & R & G & B).
  repeat split; eapply parseInt16_range; eassumption.
Qed.

(** How [hexToRgb] reads an accepted string. *)
Lemma hexToRgb_inv s rgb :
  hexToRgb s = Some rgb ->
  (exists rest, s = String "#" rest /\ parseBody rest = Some rgb)
  \/ (hasHash s = false /\ parseBody s = Some rgb).
Proof.
  destruct s as [| c rest]; [discriminate |].
  destruct (Ascii.eqb_spec c "#") as [-> | Hc].
  - rewrite hexToRgb_parseBody_hash. intros E. left. exists rest. split; [reflexivity | exact E].
  - intros E. right.
    destruct c as [[] [] [] [] [] [] [] []];
      first [contradiction Hc; reflexivity | split; [reflexivity | exact E]].
Qed.

Lemma hexToRgb_range s rgb :
  hexToRgb s = Some rgb ->
  (0 <= red rgb <= 255)%Z /\ (0 <= green rgb <= 255)%Z /\ (0 <= blue rgb <= 255)%Z.
Proof.
  intros E. apply hexToRgb_inv in E.
  destruct E as [(rest & _ & E) | [_ E]]; eapply parseBody_range; exact E.
Qed.

Lemma toUpperCase_white_body body :
  parseBody body = Some (mkRGB 255 255 255) -> toUpperCase body = "FFFFFF".
Proof.
  intros E. apply parseBody_inv in E.
  destruct E as (c1 & c2 & c3 & c4 & c5 & c6 & -> & R & G & B).
  cbn [red green blue] in *.
  apply parseInt16_max in R, G, B.
  destruct R as [R1 R2], G as [G1 G2], B as [B1 B2].
  cbn [toUpperCase]. rewrite R1, R2, G1, G2, B1, B2. reflexivity.
Qed.

Lemma toUpperCase_black_body body :
  parseBody body = Some (mkRGB 0 0 0) -> toUpperCase body = "000000".
Proof.
  intros E. apply parseBody_inv in E.
  destruct E as (c1 & c2 & c3 & c4 & c5 & c6 & -> & R & G & B).
  cbn [red green blue] in *.
  apply parseInt16_min in R, G, B.
  destruct R as [R1 R2], G as [G1 G2], B as [B1 B2].
  cbn [toUpperCase]. rewrite R1, R2, G1, G2, B1, B2. reflexivity.
Qed.

(** The upper-cased text of an accepted input that denotes white. *)
Lemma toUpperCase_white s :
  hexToRgb s = Some (mkRGB 255 255 255) ->
  toUpperCase s = if hasHash s then "#FFFFFF" else "FFFFFF".
Proof.
  intros E. apply hexToRgb_inv in E.
  destruct E as [(rest & -> & E) | [H E]].
  - cbn [hasHash toUpperCase]. rewrite (toUpperCase_white_body _ E). reflexivity.
  - rewrite H. apply toUpperCase_white_body, E.
Qed.

(** The upper-cased text of an accepted input that denotes black. *)
Lemma toUpperCase_black s :
  hexToRgb s = Some (mkRGB 0 0 0) ->
  toUpperCase s = if hasHash s then "#000000" else "000000".
Proof.
  intros E. apply hexToRgb_inv in E.
  destruct E as [(rest & -> & E) | [H E]].
  - cbn [hasHash toUpperCase]. rewrite (toUpperCase_black_body _ E). reflexivity.
  - rewrite H. apply toUpperCase_black_body, E.
Qed.

(** An exact classification names a band that holds the luminance. *)
Lemma determineGrade_exact_band luminance :
  gi_exact (determineGrade luminance) = true ->
  exists r, In r LUMINANCE_RANGES
            /\ gi_grade (determineGrade luminance) = grade r
            /\ inBand luminance r.
Proof.
  unfold determineGrade.
  destruct (find _ LUMINANCE_RANGES) as [r0 |] eqn:F.
  - intros _. apply find_some in F. destruct F as [Hin Hb].
    exists r0. repeat split; [exact Hin | apply inBand_test, Hb ..].
  - destruct (fold_left _ _ _) as [closest d].
    destruct (findNeighboringGrades luminance) as [lo hi]. discriminate.
Qed.

Lemma exact_grade0_luminance luminance :
  gi_exact (determineGrade luminance) = true ->
  gi_grade (determineGrade luminance) = 0%Z -> luminance = 1.
Proof.
  intros E G. destruct (determineGrade_exact_band _ E) as (r & Hin & Hg & Hb).
  rewrite G in Hg. unfold LUMINANCE_RANGES, inBand in *. cbn [In] in Hin.
  repeat (destruct Hin as [<- | Hin]); try contradiction;
    cbn [grade rmin rmax] in *; first [discriminate Hg | lra].
Qed.

Lemma exact_grade100_luminance luminance :
  gi_exact (determineGrade luminance) = true ->
  gi_grade (determineGrade luminance) = 100%Z -> luminance = 0.
Proof.
  intros E G. destruct (determineGrade_exact_band _ E) as (r & Hin & Hg & Hb).
  rewrite G in Hg. unfold LUMINANCE_RANGES, inBand in *. cbn [In] in Hin.
  repeat (destruct Hin as [<- | Hin]); try contradiction;
    cbn [grade rmin rmax] in *; first [discriminate Hg | lra].
Qed.

(** The grade-0 entry: the white input itself, and fixed white for
    every other input. *)
Lemma grade0_entry hexColor rgb :
  hexToRgb hexColor = Some rgb ->
  exists e,
    entryOfGrade 0 (palette (generatePalette hexColor)) = Some e
    /\ pe_luminance e = 1
    /\ (rgb = mkRGB 255 255 255 -> pe_color e = toUpperCase hexColor)
    /\ (rgb <> mkRGB 255 255 255 -> pe_color e = "#FFFFFF").
Proof.
  intros E. rewrite (generatePalette_valid _ _ E). cbv zeta. cbn [palette].
  destruct (hexToRgb_range _ _ E) as (Hr & Hg & Hb).
  destruct (calculateLuminance_range _ _ _ Hr Hg Hb) as (_ & W & _).
  assert (D : rgb = mkRGB 255 255 255 ->
              determineGrade (calculateLuminance (red rgb) (green rgb) (blue rgb))
              = mkInfo 0 true Undefined Undefined).
  { intros ->. cbn [red green blue].
    rewrite calculateLuminance_white. apply determineGrade_white. }
  set (lum := calculateLuminance _ _ _) in *.
  set (hsl := rgbToHsl _ _ _).
  rewrite entryOfGrade_map. unfold LUMINANCE_RANGES.
  cbn [find grade Z.eqb option_map].
  unfold paletteEntry. cbn [grade].
  destruct (Z.eqb_spec 0 (gi_grade (determineGrade lum))) as [G | G];
    [destruct (gi_exact (determineGrade lum)) eqn:X |]; cbn [andb Z.eqb].
  - pose proof (exact_grade0_luminance lum X (eq_sym G)) as L.
    destruct (W L) as (R1 & R2 & R3).
    destruct rgb as [r g b]. cbn [red green blue] in *. subst r g b.
    eexists. split; [reflexivity |]. cbn [pe_color pe_luminance].
    split; [exact L |]. split; [reflexivity |].
    intros N. contradiction N. reflexivity.
  - eexists. split; [reflexivity |]. cbn [pe_color pe_luminance].
    split; [lra |]. split; [| reflexivity].
    intros R. rewrite (D R) in X. discriminate X.
  - eexists. split; [reflexivity |]. cbn [pe_color pe_luminance].
    split; [lra |]. split; [| reflexivity].
    intros R. rewrite (D R) in G. contradiction G. reflexivity.
Qed.

(** The grade-100 entry: the black input itself, and fixed black for
    every other input. *)
Lemma grade100_entry hexColor rgb :
  hexToRgb hexColor = Some rgb ->
  exists e,
    entryOfGrade 100 (palette (generatePalette hexColor)) = Some e
    /\ pe_luminance e = 0
    /\ (rgb = mkRGB 0 0 0 -> pe_color e = toUpperCase hexColor)
    /\ (rgb <> mkRGB 0 0 0 -> pe_color e = "#000000").
Proof.
  intros E. rewrite (generatePalette_valid _ _ E). cbv zeta. cbn [palette].
  destruct (hexToRgb_range _ _ E) as (Hr & Hg & Hb).
  destruct (calculateLuminance_range _ _ _ Hr Hg Hb) as (_ & _ & B).
  assert (D : rgb = mkRGB 0 0 0 ->
              determineGrade (calculateLuminance (red rgb) (green rgb) (blue rgb))
              = mkInfo 100 true Undefined Undefined).
  { intros ->. cbn [red green blue].
    rewrite calculateLuminance_black. apply determineGrade_black. }
  set (lum := calculateLuminance _ _ _) in *.
  set (hsl := rgbToHsl _ _ _).
  rewrite entryOfGrade_map. unfold LUMINANCE_RANGES.
  cbn [find grade Z.eqb Pos.eqb option_map].
  unfold paletteEntry. cbn [grade].
  destruct (Z.eqb_spec 100 (gi_grade (determineGrade lum))) as [G | G];
    [destruct (gi_exact (determineGrade lum)) eqn:X |]; cbn [andb Z.eqb Pos.eqb].
  - pose proof (exact_grade100_luminance lum X (eq_sym G)) as L.
    destruct (B L) as (R1 & R2 & R3).
    destruct rgb as [r g b]. cbn [red green blue] in *. subst r g b.
    eexists. split; [reflexivity |]. cbn [pe_color pe_luminance].
    split; [exact L |]. split; [reflexivity |].
    intros N. contradiction N. reflexivity.
  - eexists. split; [reflexivity |]. cbn [pe_color pe_luminance].
    split; [lra |]. split; [| reflexivity].
    intros R. rewrite (D R) in X. discriminate X.
  - eexists. split; [reflexivity |]. cbn [pe_color pe_luminance].
    split; [lra |]. split; [| reflexivity].
    intros R. rewrite (D R) in G. contradiction G. reflexivity.
Qed.

(** C3 (as amended): for every accepted input the grade-0 entry has
    luminance 1 and the grade-100 entry has luminance 0.  For an input
    written with its ['#'] their colours are exactly ["#FFFFFF"] and
    ["#000000"].  For an input written without it, the grade-0 colour is
    the input's own text ["FFFFFF"] when the input is white and
    ["#FFFFFF"] for every other input, and the grade-100 colour is
    ["000000"] when the input is black and ["#000000"] for every other
    input. *)
Theorem end_entries_fixed (hexColor : string) :
  hexToRgb hexColor <> None ->
  let p := palette (generatePalette hexColor) in
  let white := hexToRgb hexColor = Some (mkRGB 255 255 255) in
  let black := hexToRgb hexColor = Some (mkRGB 0 0 0) in
  exists e0 e100,
    entryOfGrade 0 p = Some e0 /\ entryOfGrade 100 p = Some e100
    /\ pe_luminance e0 = 1 /\ pe_luminance e100 = 0
    /\ (hasHash hexColor = true ->
        pe_color e0 = "#FFFFFF" /\ pe_color e100 = "#000000")
    /\ (hasHash hexColor = false ->
        (white -> pe_color e0 = "FFFFFF")
        /\ (~ white -> pe_color e0 = "#FFFFFF")
        /\ (black -> pe_color e100 = "000000")
        /\ (~ black -> pe_color e100 = "#000000")).
Proof.
  intros H. destruct (hexToRgb hexColor) as [rgb |] eqn:E;
    [clear H | contradiction].
  destruct (grade0_entry _ _ E) as (e0 & F0 & L0 & W0 & N0).
  destruct (grade100_entry _ _ E) as (e100 & F100 & L100 & B100 & N100).
  assert (DW : rgb = mkRGB 255 255 255 \/ rgb <> mkRGB 255 255 255).
  { destruct rgb as [r g b].
    destruct (Z.eq_dec r 255), (Z.eq_dec g 255), (Z.eq_dec b 255);
      first [left; congruence | right; congruence]. }
  assert (DB : rgb = mkRGB 0 0 0 \/ rgb <> mkRGB 0 0 0).
  { destruct rgb as [r g b].
    destruct (Z.eq_dec r 0), (Z.eq_dec g 0), (Z.eq_dec b 0);
      first [left; congruence | right; congruence]. }
  cbv zeta. exists e0, e100.
  split; [exact F0 |]. split; [exact F100 |].
  split; [exact L0 |]. split; [exact L100 |].
  split; intros Hh.
  - split.
    + destruct DW as [R | R]; [| exact (N0 R)].
      rewrite (W0 R). subst rgb. rewrite (toUpperCase_white _ E), Hh. reflexivity.
    + destruct DB as [R | R]; [| exact (N100 R)].
      rewrite (B100 R). subst rgb. rewrite (toUpperCase_black _ E), Hh. reflexivity.
  - split; [| split; [| split]].
    + intros R. injection R as R. rewrite (W0 R). subst rgb.
      rewrite (toUpperCase_white _ E), Hh. reflexivity.
    + intros R. apply N0. intros R'. apply R. rewrite R'. reflexivity.
    + intros R. injection R as R. rewrite (B100 R). subst rgb.
      rewrite (toUpperCase_black _ E), Hh. reflexivity.
    + intros R. apply N100. intros R'. apply R. rewrite R'. reflexivity.
Qed.

Lemma end_entries_fixed_witness :
  let p := palette (generatePalette "7BC4E8") in
  let white := hexToRgb "7BC4E8" = Some (mkRGB 255 255 255) in
  let black := hexToRgb "7BC4E8" = Some (mkRGB 0 0 0) in
  exists e0 e100,
    entryOfGrade 0 p = Some e0 /\ entryOfGrade 100 p = Some e100
    /\ pe_luminance e0 = 1 /\ pe_luminance e100 = 0
    /\ (hasHash "7BC4E8" = true ->
        pe_color e0 = "#FFFFFF" /\ pe_color e100 = "#000000")
    /\ (hasHash "7BC4E8" = false ->
        (white -> pe_color e0 = "FFFFFF")
        /\ (~ white -> pe_color e0 = "#FFFFFF")
        /\ (black -> pe_color e100 = "000000")
        /\ (~ black -> pe_color e100 = "#000000")).
Proof. apply (end_entries_fixed "7BC4E8"). discriminate. Defined.

(** C3 (as stated) fails on the accepted input ["FFFFFF"]: it is an
    exact match of grade 0, so the grade-0 entry is the input string
    itself, which has no ['#']. *)
Lemma grade0_entry_without_hash :
  hexToRgb "FFFFFF" = Some (mkRGB 255 255 255)
  /\ entryOfGrade 0 (palette (generatePalette "FFFFFF"))
     = Some (mkEntry 0 "FFFFFF" 1 true)
  /\ ~ (exists e, entryOfGrade 0 (palette (generatePalette "FFFFFF")) = Some e
                  /\ pe_color e = "#FFFFFF").
Proof.
  assert (W : hexToRgb "FFFFFF" = Some (mkRGB 255 255 255)) by reflexivity.
  assert (P : entryOfGrade 0 (palette (generatePalette "FFFFFF"))
              = Some (mkEntry 0 "FFFFFF" 1 true)).
  { rewrite (generatePalette_valid _ _ W). cbv zeta. cbn [red green blue palette].
    rewrite calculateLuminance_white, determineGrade_white.
    rewrite entryOfGrade_map. reflexivity. }
  split; [exact W |]. split; [exact P |].
  intros (e & He & Hc). rewrite P in He. inversion He. subst e.
  cbn [pe_color] in Hc. discriminate Hc.
Qed.

(** ** Channel range of [hslToRgb] *)

Lemma Math_round_unit x : 0 <= x <= 1 -> (0 <= Math_round (x * 255) <= 255)%Z.
Proof.
  intros H. unfold Math_round. split.
  - apply Zfloor_lub. lra.
  - destruct (Zfloor_bound (x * 255 + 1 / 2)) as [L _].
    assert (U : IZR (Zfloor (x * 255 + 1 / 2)) < IZR 256) by lra.
    apply lt_IZR in U. lia.
Qed.

Lemma hue2rgb_unit p q t :
  0 <= p <= 1 -> 0 <= q <= 1 -> -1 <= t <= 2 -> 0 <= hue2rgb p q t <= 1.
Proof.
  intros Hp Hq Ht. unfold hue2rgb, gtb. cmp_cases; nra.
Qed.

Lemma hslToRgb_range h s l :
  0 <= h <= 1 -> 0 <= s <= 1 -> 0 <= l <= 1 ->
  (0 <= red (hslToRgb h s l) <= 255)%Z
  /\ (0 <= green (hslToRgb h s l) <= 255)%Z
  /\ (0 <= blue (hslToRgb h s l) <= 255)%Z.
Proof.
  intros Hh Hs Hl. unfold hslToRgb.
  destruct (eqb s 0).
  - cbn [red green blue]. repeat split; apply Math_round_unit; exact Hl.
  - set (q := if ltb l 0.5 then l * (1 + s) else l + s - l * s).
    assert (Hq : 0 <= q <= 1) by (unfold q; cmp_cases; nra).
    assert (Hp : 0 <= 2 * l - q <= 1) by (unfold q; cmp_cases; nra).
    cbn [red green blue].
    repeat split; apply Math_round_unit; apply hue2rgb_unit; first [assumption | lra].
Qed.

Lemma digitChar_upper d :
  (0 <= d <= 15)%Z -> isUpperHexDigit (upperChar (digitChar d)) = true.
Proof.
  intros H.
  assert (C : (d = 0 \/ d = 1 \/ d = 2 \/ d = 3 \/ d = 4 \/ d = 5 \/ d = 6
               \/ d = 7 \/ d = 8 \/ d = 9 \/ d = 10 \/ d = 11 \/ d = 12
               \/ d = 13 \/ d = 14 \/ d = 15)%Z) by lia.
  repeat (destruct C as [-> | C]; [reflexivity |]). subst d. reflexivity.
Qed.

Lemma rgbToHex_wellFormed r g b :
  (0 <= r <= 255)%Z -> (0 <= g <= 255)%Z -> (0 <= b <= 255)%Z ->
  wellFormedHex (rgbToHex r g b) = true.
Proof.
  intros Hr Hg Hb. rewrite rgbToHex_digits by assumption.
  unfold hex2.
  cbn [toUpperCase wellFormedHex String.length Nat.eqb list_ascii_of_string
         forallb andb].
  rewrite !digitChar_upper by (Z.div_mod_to_equations; lia).
  reflexivity.
Qed.

(** C9: for hue, saturation and lightness in [0,1] the three channels
    of [hslToRgb] are integers in [0,255], and [rgbToHex] prints them as
    a ['#'] followed by six upper-case hex digits. *)
Theorem hslToRgb_channels (h s l : R) :
  0 <= h <= 1 -> 0 <= s <= 1 -> 0 <= l <= 1 ->
  let rgb := hslToRgb h s l in
  (0 <= red rgb <= 255)%Z /\ (0 <= green rgb <= 255)%Z /\ (0 <= blue rgb <= 255)%Z
  /\ wellFormedHex (rgbToHex (red rgb) (green rgb) (blue rgb)) = true.
Proof.
  intros Hh Hs Hl rgb.
  destruct (hslToRgb_range h s l Hh Hs Hl) as (Hr & Hg & Hb).
  repeat split; try (apply Hr || apply Hg || apply Hb).
  apply rgbToHex_wellFormed; assumption.
Qed.

Lemma hslToRgb_channels_witness :
  let rgb := hslToRgb 0.5 0.5 0.5 in
  (0 <= red rgb <= 255)%Z /\ (0 <= green rgb <= 255)%Z /\ (0 <= blue rgb <= 255)%Z
  /\ wellFormedHex (rgbToHex (red rgb) (green rgb) (blue rgb)) = true.
Proof. apply hslToRgb_channels; lra. Defined.

(** ** Saturation adjustment *)

Lemma Math_pow_Rpower x y : 0 < x -> Math_pow x y = Rpower x y.
Proof.
  intros H. unfold Math_pow. destruct (Req_dec_T x 0); [lra | reflexivity].
Qed.

(** C5: [adjustSaturationForPastel] is 0 at grades 0 and 100; at a grade
    [g] strictly between them it is
    min(max(s, 0.08) * (0.45 + 0.35 b), 0.4 + 0.3 b) with
    b = 0.7 (g/100)^1.6 + 0.3 (g/100)^3, where the multiplier lies in
    [0.45, 0.80] and the cap in [0.4, 0.7]. *)
Theorem adjustSaturationForPastel_spec (saturation luminance : R) (g : Z) :
  (0 <= g <= 100)%Z ->
  (g = 0%Z \/ g = 100%Z -> adjustSaturationForPastel saturation luminance g = 0)
  /\ (g <> 0%Z -> g <> 100%Z ->
      let b := 0.7 * Rpower (IZR g / 100) 1.6 + 0.3 * (IZR g / 100) ^ 3 in
      adjustSaturationForPastel saturation luminance g
      = Rmin (Rmax saturation 0.08 * (0.45 + 0.35 * b)) (0.4 + 0.3 * b)
      /\ 0.45 <= 0.45 + 0.35 * b <= 0.80
      /\ 0.4 <= 0.4 + 0.3 * b <= 0.7).
Proof.
  intros Hg. unfold adjustSaturationForPastel. split.
  - intros [-> | ->]; reflexivity.
  - intros H0 H100.
    destruct (Z.eqb_spec g 0) as [E | _]; [contradiction |].
    destruct (Z.eqb_spec g 100) as [E | _]; [contradiction |].
    cbn [orb]. cbv zeta.
    assert (Hn : 0 < IZR g / 100 < 1).
    { assert (1 <= g <= 99)%Z as [L U] by lia.
      apply IZR_le in L, U. lra. }
    rewrite Math_pow_Rpower by lra.
    assert (P : 0 < Rpower (IZR g / 100) 1.6 < 1).
    { rewrite <- (Math_pow_Rpower _ 1.6) by lra.
      split; [apply Math_pow_pos; lra | apply Math_pow_lt_one; lra]. }
    set (n := IZR g / 100) in *. set (c := Rpower n 1.6) in *.
    assert (C : 0 <= n ^ 3 <= 1).
    { replace (n ^ 3) with (n * n * n) by ring. nra. }
    split; [| split; lra].
    f_equal; [f_equal |]; ring.
Qed.

Lemma adjustSaturationForPastel_spec_witness :
  adjustSaturationForPastel 0.5 0.179 50
  = Rmin (Rmax 0.5 0.08
          * (0.45 + 0.35 * (0.7 * Rpower (50 / 100) 1.6 + 0.3 * (50 / 100) ^ 3)))
         (0.4 + 0.3 * (0.7 * Rpower (50 / 100) 1.6 + 0.3 * (50 / 100) ^ 3)).
Proof.
  assert (H : (0 <= 50 <= 100)%Z) by lia.
  destruct (adjustSaturationForPastel_spec 0.5 0.179 50 H) as [_ S].
  destruct S as [E _]; [discriminate | discriminate |]. exact E.
Defined.

(** ** The bisection on lightness *)

Lemma bisect_trace hue saturation target tolerance :
  forall n low high mid,
  exists k,
    (k <= n)%nat
    /\ bisect n hue saturation target tolerance low high mid
       = lightnessColor hue saturation
           (midOf (Nat.iter k (narrow hue saturation target) (low, high, mid)))
    /\ (forall j, (j < k)%nat ->
          ~ within hue saturation target tolerance
              (midOf (Nat.iter j (narrow hue saturation target) (low, high, mid))))
    /\ ((k < n)%nat ->
        within hue saturation target tolerance
          (midOf (Nat.iter k (narrow hue saturation target) (low, high, mid)))).
Proof.
  induction n as [| n IH]; intros low high mid.
  - exists 0%nat.
    split; [lia | split; [reflexivity | split; [intros j Hj | intros Hk]; lia]].
  - cbn [bisect]. fold (lightnessLuminance hue saturation mid).
    destruct (ltb _ tolerance) eqn:T.
    + apply ltb_true in T. exists 0%nat.
      split; [| split; [| split]].
      * lia.
      * reflexivity.
      * intros j Hj. lia.
      * intros _. exact T.
    + apply ltb_false in T.
      assert (N : narrow hue saturation target (low, high, mid)
                  = (let '(low', high') :=
                       if gtb (lightnessLuminance hue saturation mid) target
                       then (low, mid) else (mid, high) in
                     (low', high', (low' + high') / 2))).
      { unfold narrow, gtb, ltb.
        destruct (Rlt_dec target (lightnessLuminance hue saturation mid));
          reflexivity. }
      destruct (if gtb (lightnessLuminance hue saturation mid) target
                then (low, mid) else (mid, high)) as [low' high'].
      destruct (IH low' high' ((low' + high') / 2)) as (k & Hk & E & B & A).
      exists (S k). rewrite Nat.iter_succ_r, N.
      split; [| split; [| split]].
      * lia.
      * exact E.
      * intros [| j] Hj.
        -- change (Nat.iter 0 (narrow hue saturation target) (low, high, mid))
             with (low, high, mid).
           unfold within, midOf. cbn [snd]. lra.
        -- rewrite Nat.iter_succ_r, N. apply B. lia.
      * intros Hlt. apply A. lia.
Qed.

(** C4: [generateColorWithLuminance] returns the colour of the first
    lightness, among the at most 30 the bisection visits, whose
    luminance is within the tolerance of the target, and the colour of
    the midpoint left after 30 narrowings when there is none; the
    tolerance is 0.002 for a grade of at most 20 and 0.001 otherwise. *)
Theorem generateColorWithLuminance_spec
    (hue saturation target : R) (grade : option Z) :
  let adjusted :=
    match grade with
    | Some g => adjustSaturationForPastel saturation target g
    | None => saturation
    end in
  let tolerance :=
    match grade with
    | Some g => if (g <=? 20)%Z then 0.002 else 0.001
    | None => 0.001
    end in
  exists k,
    (k <= 30)%nat
    /\ generateColorWithLuminance hue saturation target grade
       = lightnessColor hue adjusted (midOf (searchState hue adjusted target k))
    /\ (forall j, (j < k)%nat ->
          ~ within hue adjusted target tolerance
              (midOf (searchState hue adjusted target j)))
    /\ ((k < 30)%nat ->
        within hue adjusted target tolerance
          (midOf (searchState hue adjusted target k))).
Proof.
  intros adjusted tolerance.
  assert (T : toleranceFor grade = tolerance).
  { unfold toleranceFor, tolerance. destruct grade as [g |]; [| reflexivity].
    destruct (g <=? 20)%Z; [reflexivity |].
    destruct (g <=? 40)%Z; reflexivity. }
  unfold generateColorWithLuminance, searchState. fold adjusted. rewrite T.
  apply bisect_trace.
Qed.

(** ** White and black in binary64 *)

Section Binary64Facts.
Import PrimFloat.
Local Open Scope float_scope.
Local Set Warnings "-inexact-float".

Variable pow : float -> float -> float.

(** With [Math.pow(1, 2.4) = 1], the binary64 luminance of white is
    exactly 1, so it passes the test of the band [1, 1]. *)
Lemma binary64_white :
  pow 1 2.4 = 1 ->
  Binary64.calculateLuminance pow 255 255 255 = 1
  /\ Binary64.inRange (Binary64.calculateLuminance pow 255 255 255) 1 1 = true.
Proof.
  intros H.
  assert (E : Binary64.calculateLuminance pow 255 255 255 = 1).
  { unfold Binary64.calculateLuminance, Binary64.linearChannel.
    cbv zeta.
    change (255 / 255) with 1.
    change (1 <=? 0.03928) with false. cbv iota.
    change ((1 + 0.055) / 1.055) with 1.
    rewrite H. reflexivity. }
  split; [exact E |]. rewrite E. reflexivity.
Qed.

(** The binary64 luminance of black is exactly 0, whatever [Math.pow]
    computes, so it passes the test of the band [0, 0]. *)
Lemma binary64_black :
  Binary64.calculateLuminance pow 0 0 0 = 0
  /\ Binary64.inRange (Binary64.calculateLuminance pow 0 0 0) 0 0 = true.
Proof.
  split; reflexivity.
Qed.

End Binary64Facts.

(** ** Classification of a luminance in binary64 *)

(** *** Order of the binary64 numbers *)

Section Binary64Order.
Import Floats.

Ltac order_cases :=
  unfold SFltb, SFleb, SFcompare;
  repeat match goal with
         | x : spec_float |- _ => destruct x as [[] | [] | | [] ? ?]
         end;
  cbn [Binary64.isNumber CompOpp];
  change (Pos.compare_cont Eq) with Pos.compare;
  repeat match goal with
         | |- context [Z.compare ?a ?b] => destruct (Z.compare_spec a b)
         | |- context [Pos.compare ?a ?b] => destruct (Pos.compare_spec a b)
         end;
  cbn [CompOpp]; intros;
  first [reflexivity | discriminate | lia | split; reflexivity].

Lemma SFltb_total x y :
  Binary64.isNumber x = true -> Binary64.isNumber y = true ->
  SFltb x y = false -> SFleb y x = true.
Proof. order_cases. Qed.

Lemma SFltb_SFleb_trans x y z :
  SFltb x y = true -> SFleb y z = true -> SFltb x z = true.
Proof. order_cases. Qed.

Lemma SFleb_SFltb_trans x y z :
  SFleb x y = true -> SFltb y z = true -> SFltb x z = true.
Proof. order_cases. Qed.

Lemma SFltb_SFleb x y : SFltb x y = true -> SFleb x y = true.
Proof. order_cases. Qed.

Lemma SFleb_refl x : Binary64.isNumber x = true -> SFleb x x = true.
Proof. order_cases. Qed.

Lemma SFltb_irrefl x : SFltb x x = false.
Proof. order_cases. Qed.

Lemma SFltb_isNumber x y :
  SFltb x y = true -> Binary64.isNumber x = true /\ Binary64.isNumber y = true.
Proof. order_cases. Qed.

Local Open Scope float_scope.

Lemma float_ltb_number x y :
  (x <? y) = true -> Binary64.number x = true /\ Binary64.number y = true.
Proof. rewrite ltb_spec. apply SFltb_isNumber. Qed.

Lemma float_ltb_total x y :
  Binary64.number x = true -> Binary64.number y = true ->
  (x <? y) = false -> (y <=? x) = true.
Proof. rewrite ltb_spec, leb_spec. apply SFltb_total. Qed.

Lemma float_ltb_leb_trans x y z :
  (x <? y) = true -> (y <=? z) = true -> (x <? z) = true.
Proof. rewrite !ltb_spec, leb_spec. apply SFltb_SFleb_trans. Qed.

Lemma float_leb_ltb_trans x y z :
  (x <=? y) = true -> (y <? z) = true -> (x <? z) = true.
Proof. rewrite !ltb_spec, leb_spec. apply SFleb_SFltb_trans. Qed.

Lemma float_ltb_leb x y : (x <? y) = true -> (x <=? y) = true.
Proof. rewrite ltb_spec, leb_spec. apply SFltb_SFleb. Qed.

Lemma float_leb_refl x : Binary64.number x = true -> (x <=? x) = true.
Proof. rewrite leb_spec. apply SFleb_refl. Qed.

Lemma float_ltb_irrefl x : (x <? x) = false.
Proof. rewrite ltb_spec. apply SFltb_irrefl. Qed.

(** No number lies on both sides of a gap. *)
Lemma gap_clash x b c :
  (x <=? b) = true -> (c <=? x) = true -> (b <? c) = true -> False.
Proof.
  intros H1 H2 H3.
  pose proof (float_ltb_leb_trans _ _ _ (float_leb_ltb_trans _ _ _ H1 H3) H2) as C.
  rewrite float_ltb_irrefl in C. discriminate C.
Qed.

End Binary64Order.

(** *** Magnitude of a rounded difference *)

Section Binary64Rounding.
Import Floats.
Local Open Scope Z_scope.

Lemma fexp_binary64 e : fexp prec emax e = Z.max (e - 53) (-1074).
Proof. reflexivity. Qed.

Lemma digits2_pos_size p : digits2_pos p = Pos.size p.
Proof. induction p as [p IH | p IH |]; cbn; congruence. Qed.

(** A non-negative integer of at most [k] binary digits is below
    [2 ^ k], and conversely. *)
Lemma Zdigits2_value m k : 0 <= m -> Zdigits2 m <= k -> m < 2 ^ k.
Proof.
  intros Hm Hk. destruct m as [| p | p]; [| | lia].
  - apply Z.pow_pos_nonneg; cbn in Hk; lia.
  - cbn [Zdigits2] in Hk. rewrite digits2_pos_size in Hk.
    pose proof (Pos.size_gt p) as G.
    apply Pos2Z.pos_lt_pos in G. rewrite Pos2Z.inj_pow in G.
    eapply Z.lt_le_trans; [exact G |].
    apply Z.pow_le_mono_r; lia.
Qed.

Lemma value_Zdigits2 m k : 0 <= m -> 0 <= k -> m < 2 ^ k -> Zdigits2 m <= k.
Proof.
  intros Hm Hk Hv. destruct m as [| p | p]; [exact Hk | | lia].
  cbn [Zdigits2]. rewrite digits2_pos_size.
  pose proof (Pos.size_le p) as L.
  apply Pos2Z.pos_le_pos in L. rewrite Pos2Z.inj_pow in L.
  change (Z.pos p~0) with (2 * Z.pos p) in L.
  assert (S : 2 ^ Z.pos (Pos.size p) < 2 ^ (k + 1)).
  { rewrite Z.pow_add_r by lia. change (2 ^ 1) with 2. lia. }
  assert (Z.pos (Pos.size p) < k + 1) by (apply (Z.pow_lt_mono_r_iff 2); lia).
  lia.
Qed.

(** One shift to the right halves the mantissa. *)
Lemma shr_1_value mrs : 0 <= shr_m mrs -> shr_m (shr_1 mrs) = shr_m mrs / 2.
Proof.
  destruct mrs as [m r s]. cbn [shr_m]. intros H.
  rewrite <- Z.div2_div.
  destruct m as [| [p | p |] | p]; cbn; try reflexivity; lia.
Qed.

Lemma iter_shr_1_value p :
  forall mrs, 0 <= shr_m mrs ->
              shr_m (iter_pos shr_1 p mrs) = shr_m mrs / 2 ^ Z.pos p.
Proof.
  induction p as [p IH | p IH |]; intros mrs H; cbn [iter_pos].
  - assert (H1 : 0 <= shr_m (shr_1 mrs))
      by (rewrite shr_1_value by exact H; apply Z.div_pos; lia).
    assert (H2 : 0 <= shr_m (iter_pos shr_1 p (shr_1 mrs)))
      by (rewrite IH by exact H1; apply Z.div_pos; [exact H1 | lia]).
    rewrite IH by exact H2. rewrite IH by exact H1. rewrite shr_1_value by exact H.
    rewrite !Z.div_div by lia.
    f_equal. rewrite Pos2Z.inj_xI.
    rewrite Z.pow_add_r, Z.pow_mul_r by lia.
    change (2 ^ 2) with 4. change (2 ^ 1) with 2.
    replace 4 with (2 * 2) by reflexivity. rewrite Z.pow_mul_l. lia.
  - assert (H1 : 0 <= shr_m (iter_pos shr_1 p mrs))
      by (rewrite IH by exact H; apply Z.div_pos; [exact H | lia]).
    rewrite IH by exact H1. rewrite IH by exact H.
    rewrite Z.div_div by lia.
    f_equal. rewrite Pos2Z.inj_xO, <- Z.pow_add_r by lia. f_equal. lia.
  - rewrite shr_1_value by exact H. reflexivity.
Qed.

(** What [shr_fexp] returns on a non-negative mantissa. *)
Lemma shr_fexp_value m e l :
  0 <= m ->
  let '(mrs, e') := shr_fexp prec emax m e l in
  e' = Z.max e (fexp prec emax (Zdigits2 m + e))
  /\ shr_m mrs = m / 2 ^ (e' - e).
Proof.
  intros Hm. unfold shr_fexp, shr.
  assert (R : shr_m (shr_record_of_loc m l) = m)
    by (destruct l as [| []]; reflexivity).
  destruct (fexp prec emax (Zdigits2 m + e) - e) as [| p | p] eqn:E.
  - split; [lia |]. rewrite R. replace (e - e) with 0 by lia.
    rewrite Z.pow_0_r, Z.div_1_r. reflexivity.
  - split; [lia |]. rewrite iter_shr_1_value by (rewrite R; exact Hm).
    rewrite R. f_equal. f_equal. lia.
  - split; [lia |]. rewrite R. replace (e - e) with 0 by lia.
    rewrite Z.pow_0_r, Z.div_1_r. reflexivity.
Qed.

Lemma round_nearest_even_value m l : m <= round_nearest_even m l <= m + 1.
Proof.
  unfold round_nearest_even. destruct l as [| []]; try destruct (Z.even m); lia.
Qed.

(** Rounding a mantissa below [2 ^ (1022 - ex)] at an exponent [ex] of at
    most 970 gives a number of magnitude below the largest one. *)
Lemma binary_round_aux_small sx mx ex lx :
  0 <= mx -> ex <= 970 -> mx < 2 ^ (1022 - ex) ->
  SFltb (SFabs (binary_round_aux prec emax sx mx ex lx)) Binary64.SFmax = true.
Proof.
  intros Hm He Hv. unfold binary_round_aux.
  pose proof (shr_fexp_value mx ex lx Hm) as S1.
  destruct (shr_fexp prec emax mx ex lx) as [mrs' e'].
  destruct S1 as [E1 V1].
  assert (D1 : Zdigits2 mx <= 1022 - ex) by (apply value_Zdigits2; lia).
  rewrite fexp_binary64 in E1.
  assert (He' : ex <= e' <= 970) by lia.
  assert (P : 0 < 2 ^ (e' - ex)) by (apply Z.pow_pos_nonneg; lia).
  assert (Hm' : 0 <= shr_m mrs') by (rewrite V1; apply Z.div_pos; lia).
  assert (Hv' : shr_m mrs' < 2 ^ (1022 - e')).
  { rewrite V1. apply Z.div_lt_upper_bound; [exact P |].
    rewrite <- Z.pow_add_r by lia.
    replace (e' - ex + (1022 - e')) with (1022 - ex) by lia. exact Hv. }
  pose proof (round_nearest_even_value (shr_m mrs') (loc_of_shr_record mrs')) as Rn.
  set (m1 := round_nearest_even (shr_m mrs') (loc_of_shr_record mrs')) in *.
  assert (Hm1 : 0 <= m1) by lia.
  assert (Hv1 : m1 < 2 ^ (1023 - e')).
  { replace (1023 - e') with (1022 - e' + 1) by lia.
    rewrite Z.pow_add_r by lia. lia. }
  pose proof (shr_fexp_value m1 e' loc_Exact Hm1) as S2.
  destruct (shr_fexp prec emax m1 e' loc_Exact) as [mrs'' e''].
  destruct S2 as [E2 V2].
  assert (D2 : Zdigits2 m1 <= 1023 - e') by (apply value_Zdigits2; lia).
  rewrite fexp_binary64 in E2.
  assert (He'' : e' <= e'' <= 970) by lia.
  assert (Hm'' : 0 <= shr_m mrs'').
  { rewrite V2. apply Z.div_pos; [exact Hm1 | apply Z.pow_pos_nonneg; lia]. }
  destruct (shr_m mrs'') as [| p | p]; [reflexivity | | lia].
  replace (e'' <=? emax - prec) with true
    by (symmetry; apply Z.leb_le; change (emax - prec) with 971; lia).
  unfold SFabs, SFltb, Binary64.SFmax, SFcompare.
  replace (e'' ?= 971) with Lt by (symmetry; apply Z.compare_lt_iff; lia).
  reflexivity.
Qed.

Lemma iter_xO_value m d : Z.pos (Pos.iter xO m d) = Z.pos m * 2 ^ Z.pos d.
Proof.
  induction d as [| d IH] using Pos.peano_ind.
  - cbn [Pos.iter]. change (2 ^ 1) with 2. lia.
  - rewrite Pos.iter_succ, Pos2Z.inj_succ, Z.pow_succ_r by lia.
    change (Z.pos (Pos.iter xO m d)~0) with (2 * Z.pos (Pos.iter xO m d)). lia.
Qed.

(** Aligning a mantissa to a smaller exponent keeps its value. *)
Lemma shl_align_value mx ex ex' :
  let '(m, e) := shl_align mx ex ex' in
  e = Z.min ex ex' /\ Z.pos m = Z.pos mx * 2 ^ (ex - e).
Proof.
  unfold shl_align. destruct (ex' - ex) as [| d | d] eqn:E.
  - split; [lia |]. replace (ex - ex) with 0 by lia. rewrite Z.pow_0_r. lia.
  - split; [lia |]. replace (ex - ex) with 0 by lia. rewrite Z.pow_0_r. lia.
  - split; [lia |]. rewrite iter_xO_value. f_equal. f_equal. lia.
Qed.

Lemma binary_round_small sx mx ex :
  ex <= 970 -> Z.pos mx < 2 ^ (1022 - ex) ->
  SFltb (SFabs (binary_round prec emax sx mx ex)) Binary64.SFmax = true.
Proof.
  intros He Hv. unfold binary_round.
  pose proof (shl_align_value mx ex (fexp prec emax (Z.pos (digits2_pos mx) + ex)))
    as A.
  destruct (shl_align mx ex _) as [mz ez]. destruct A as [E V].
  apply binary_round_aux_small; [lia | lia |].
  rewrite V. replace (1022 - ez) with (1022 - ex + (ex - ez)) by lia.
  rewrite Z.pow_add_r by lia.
  apply Z.mul_lt_mono_pos_r; [apply Z.pow_pos_nonneg; lia | exact Hv].
Qed.

Lemma binary_normalize_small m e szero :
  e <= 970 -> Z.abs m < 2 ^ (1022 - e) ->
  SFltb (SFabs (binary_normalize prec emax m e szero)) Binary64.SFmax = true.
Proof.
  intros He Hv. destruct m as [| p | p]; cbn [binary_normalize].
  - destruct szero; reflexivity.
  - apply binary_round_small; assumption.
  - apply binary_round_small; assumption.
Qed.

Lemma aligned_small m e ez :
  ez <= e -> Z.pos (digits2_pos m) + e <= 1021 ->
  Z.pos (fst (shl_align m e ez)) < 2 ^ (1021 - ez).
Proof.
  intros Hz Hd. pose proof (shl_align_value m e ez) as A.
  destruct (shl_align m e ez) as [m' e']. destruct A as [E V]. cbn [fst].
  rewrite V. replace e' with ez by lia.
  assert (B : Z.pos m < 2 ^ Z.pos (digits2_pos m))
    by (apply Zdigits2_value; cbn [Zdigits2]; lia).
  replace (1021 - ez) with (1021 - e + (e - ez)) by lia.
  rewrite Z.pow_add_r by lia.
  apply Z.mul_lt_mono_pos_r; [apply Z.pow_pos_nonneg; lia |].
  eapply Z.lt_le_trans; [exact B |]. apply Z.pow_le_mono_r; lia.
Qed.

(** The rounded difference of two small numbers is below the largest
    number in magnitude: it is neither NaN nor infinite. *)
Lemma SFsub_small x y :
  Binary64.small x = true -> Binary64.small y = true ->
  SFltb (SFabs (SFsub prec emax x y)) Binary64.SFmax = true.
Proof.
  destruct x as [sx | sx | | sx mx ex], y as [sy | sy | | sy my ey];
    try discriminate; cbn [Binary64.small]; intros Hx Hy.
  - destruct sx, sy; reflexivity.
  - apply andb_true_iff in Hy. destruct Hy as [Hy _]. apply Z.leb_le in Hy.
    cbn [SFsub SFabs]. unfold SFltb, Binary64.SFmax, SFcompare.
    replace (ey ?= 971) with Lt by (symmetry; apply Z.compare_lt_iff; lia).
    reflexivity.
  - apply andb_true_iff in Hx. destruct Hx as [Hx _]. apply Z.leb_le in Hx.
    cbn [SFsub SFabs]. unfold SFltb, Binary64.SFmax, SFcompare.
    replace (ex ?= 971) with Lt by (symmetry; apply Z.compare_lt_iff; lia).
    reflexivity.
  - apply andb_true_iff in Hx, Hy. destruct Hx as [Ex Dx], Hy as [Ey Dy].
    apply Z.leb_le in Ex, Dx, Ey, Dy. cbn [SFsub]. cbv zeta.
    pose proof (aligned_small mx ex (Z.min ex ey) ltac:(lia) Dx) as Bx.
    pose proof (aligned_small my ey (Z.min ex ey) ltac:(lia) Dy) as By.
    apply binary_normalize_small; [lia |].
    replace (1022 - Z.min ex ey) with (1021 - Z.min ex ey + 1) by lia.
    rewrite Z.pow_add_r by lia. change (2 ^ 1) with 2.
    unfold cond_Zopp. change (IntDef.Z.min ex ey) with (Z.min ex ey).
    destruct sx, sy; lia.
Qed.

Local Open Scope float_scope.

(** A binary64 number between 0 and 1 is small. *)
Lemma unit_small (x : float) :
  (0 <=? x) = true -> (x <=? 1) = true -> Binary64.small (Prim2SF x) = true.
Proof.
  rewrite !leb_spec. pose proof (Prim2SF_valid x) as V.
  change (Prim2SF 0) with (S754_zero false).
  change (Prim2SF 1) with (S754_finite false 4503599627370496 (-52)).
  destruct (Prim2SF x) as [s | s | | s m e]; intros H0 H1.
  - reflexivity.
  - destruct s; discriminate.
  - discriminate.
  - destruct s; [discriminate H0 |].
    cbn [valid_binary] in V. unfold bounded, canonical_mantissa in V.
    apply andb_true_iff in V. destruct V as [C _]. apply Z.eqb_eq in C.
    rewrite fexp_binary64 in C.
    assert (E : (e <= -52)%Z).
    { revert H1. unfold SFleb, SFcompare.
      destruct (Z.compare_spec e (-52)); [lia | lia | discriminate]. }
    cbn [Binary64.small]. apply andb_true_iff. split; apply Z.leb_le; lia.
Qed.

End Binary64Rounding.

(** *** The grade of a luminance *)

Section Binary64Classification.
Import Floats.
Local Open Scope float_scope.
Local Set Warnings "-inexact-float".

(** No luminance lies in two bands of the table. *)
Lemma bands_disjoint_binary64 luminance r r' :
  In r Binary64.LUMINANCE_RANGES -> In r' Binary64.LUMINANCE_RANGES ->
  Binary64.inBand luminance r = true -> Binary64.inBand luminance r' = true ->
  r = r'.
Proof.
  unfold Binary64.LUMINANCE_RANGES, Binary64.inBand, Binary64.inRange.
  cbn [In]. intros H H' B B'.
  apply andb_true_iff in B, B'. destruct B as [B1 B2], B' as [B1' B2'].
  repeat (destruct H as [<- | H]); try contradiction;
    cbn [Binary64.rmin Binary64.rmax] in B1, B2;
    repeat (destruct H' as [<- | H']); try contradiction;
    cbn [Binary64.rmin Binary64.rmax] in B1', B2';
    first [ reflexivity
          | exfalso; exact (gap_clash _ _ _ B2 B1' eq_refl)
          | exfalso; exact (gap_clash _ _ _ B2' B1 eq_refl) ].
Qed.

(** What the closest-grade loop computes on any list of bands whose
    differences are numbers, from any starting pair: either nothing
    beats the starting difference, or the result is the first band of
    least difference. *)
Lemma closest_fold_binary64 luminance (l : list Binary64.GradeRange)
    (g0 : Z) (d0 : float) :
  Binary64.number d0 = true ->
  (forall r, In r l -> Binary64.number (Binary64.distance luminance r) = true) ->
  let res := fold_left (Binary64.closerGrade luminance) l (g0, d0) in
  (res = (g0, d0)
   /\ forall r, In r l -> (d0 <=? Binary64.distance luminance r) = true)
  \/ (exists i r,
        nth_error l i = Some r
        /\ res = (Binary64.grade r, Binary64.distance luminance r)
        /\ (Binary64.distance luminance r <? d0) = true
        /\ (forall r', In r' l ->
              (Binary64.distance luminance r <=? Binary64.distance luminance r')
              = true)
        /\ (forall j r', (j < i)%nat -> nth_error l j = Some r' ->
              (Binary64.distance luminance r <? Binary64.distance luminance r')
              = true)).
Proof.
  intros N0. cbv zeta. induction l as [| x l IH] using rev_ind; intros Nl.
  - left. split; [reflexivity | intros r []].
  - assert (Nx : Binary64.number (Binary64.distance luminance x) = true)
      by (apply Nl, in_or_app; right; left; reflexivity).
    assert (Nl' : forall r, In r l ->
                    Binary64.number (Binary64.distance luminance r) = true)
      by (intros r Hr; apply Nl, in_or_app; left; exact Hr).
    specialize (IH Nl').
    rewrite fold_left_app. cbn [fold_left].
    destruct IH as [[E A] | (i & r & N & E & D & A & F)]; rewrite E;
      unfold Binary64.closerGrade;
      fold (Binary64.midpoint x); fold (Binary64.distance luminance x);
      destruct (Binary64.distance luminance x <? _) eqn:C.
    + right. exists (List.length l), x.
      split; [rewrite nth_error_app2, Nat.sub_diag by lia; reflexivity |].
      split; [reflexivity |]. split; [exact C |]. split.
      * intros r' Hin. apply in_app_or in Hin. destruct Hin as [Hin | [<- | []]].
        -- apply float_ltb_leb, (float_ltb_leb_trans _ _ _ C), A, Hin.
        -- apply float_leb_refl, Nx.
      * intros j r' Hj Hn. rewrite nth_error_app1 in Hn by exact Hj.
        apply nth_error_In in Hn. apply (float_ltb_leb_trans _ _ _ C), A, Hn.
    + left. split; [reflexivity |].
      intros r' Hin. apply in_app_or in Hin. destruct Hin as [Hin | [<- | []]].
      * apply A, Hin.
      * apply float_ltb_total; assumption.
    + right. exists (List.length l), x.
      split; [rewrite nth_error_app2, Nat.sub_diag by lia; reflexivity |].
      split; [reflexivity |].
      split; [apply (float_ltb_leb_trans _ _ _ C), float_ltb_leb, D |]. split.
      * intros r' Hin. apply in_app_or in Hin. destruct Hin as [Hin | [<- | []]].
        -- apply float_ltb_leb, (float_ltb_leb_trans _ _ _ C), A, Hin.
        -- apply float_leb_refl, Nx.
      * intros j r' Hj Hn. rewrite nth_error_app1 in Hn by exact Hj.
        apply nth_error_In in Hn. apply (float_ltb_leb_trans _ _ _ C), A, Hn.
    + right. exists i, r.
      assert (Hi : (i < List.length l)%nat)
        by (apply nth_error_Some; rewrite N; discriminate).
      split; [rewrite nth_error_app1 by exact Hi; exact N |].
      split; [reflexivity |]. split; [exact D |]. split.
      * intros r' Hin. apply in_app_or in Hin. destruct Hin as [Hin | [<- | []]].
        -- apply A, Hin.
        -- apply float_ltb_total;
             [exact Nx | apply (float_ltb_number _ _ D) | exact C].
      * intros j r' Hj Hn. rewrite nth_error_app1 in Hn by lia.
        apply (F j r' Hj Hn).
Qed.

(** The midpoints of the table are small numbers. *)
Lemma midpoint_small r :
  In r Binary64.LUMINANCE_RANGES ->
  Binary64.small (Prim2SF (Binary64.midpoint r)) = true.
Proof.
  unfold Binary64.LUMINANCE_RANGES. cbn [In]. intros H.
  repeat (destruct H as [<- | H]); try contradiction; vm_compute; reflexivity.
Qed.

(** For a luminance between 0 and 1 every difference the loop computes
    is below [Number.MAX_VALUE], the starting value of its minimum. *)
Lemma distance_below_MAX_VALUE luminance r :
  (0 <=? luminance) = true -> (luminance <=? 1) = true ->
  In r Binary64.LUMINANCE_RANGES ->
  (Binary64.distance luminance r <? Binary64.Number_MAX_VALUE) = true.
Proof.
  intros H0 H1 Hin. unfold Binary64.distance.
  rewrite ltb_spec, abs_spec, sub_spec.
  change (Prim2SF Binary64.Number_MAX_VALUE) with Binary64.SFmax.
  apply SFsub_small; [apply unit_small; assumption | apply midpoint_small, Hin].
Qed.

(** C2: on binary64 numbers, a luminance between 0 and 1 that lies inside
    a band is classified as that band's grade, exactly; one that lies
    inside no band is classified, inexactly, as the grade of the band
    whose midpoint has the least difference from it, and among bands of
    equal difference as the first one in table order.  Midpoints,
    differences and comparisons are the rounded ones the program
    computes. *)
Theorem determineGrade_binary64 (luminance : float) :
  (0 <=? luminance) = true -> (luminance <=? 1) = true ->
  (forall r, In r Binary64.LUMINANCE_RANGES ->
     Binary64.inBand luminance r = true ->
     gi_grade (Binary64.determineGrade luminance) = Binary64.grade r
     /\ gi_exact (Binary64.determineGrade luminance) = true)
  /\ ((forall r, In r Binary64.LUMINANCE_RANGES ->
         Binary64.inBand luminance r = false) ->
      gi_exact (Binary64.determineGrade luminance) = false
      /\ exists i r,
           nth_error Binary64.LUMINANCE_RANGES i = Some r
           /\ gi_grade (Binary64.determineGrade luminance) = Binary64.grade r
           /\ (forall r', In r' Binary64.LUMINANCE_RANGES ->
                 (Binary64.distance luminance r <=? Binary64.distance luminance r')
                 = true)
           /\ (forall j r', (j < i)%nat ->
                 nth_error Binary64.LUMINANCE_RANGES j = Some r' ->
                 (Binary64.distance luminance r <? Binary64.distance luminance r')
                 = true)).
Proof.
  intros H0 H1. unfold Binary64.determineGrade. split.
  - intros r Hin Hb.
    destruct (find _ Binary64.LUMINANCE_RANGES) as [r0 |] eqn:F.
    + apply find_some in F. destruct F as [Hin0 Hb0].
      rewrite (bands_disjoint_binary64 luminance r r0 Hin Hin0 Hb Hb0).
      split; reflexivity.
    + apply (find_none _ _ F) in Hin.
      unfold Binary64.inBand, Binary64.inRange in Hb. congruence.
  - intros Hnone.
    destruct (find _ Binary64.LUMINANCE_RANGES) as [r0 |] eqn:F.
    + apply find_some in F. destruct F as [Hin0 Hb0].
      specialize (Hnone r0 Hin0).
      unfold Binary64.inBand, Binary64.inRange in Hnone. congruence.
    + assert (D : forall r, In r Binary64.LUMINANCE_RANGES ->
                    (Binary64.distance luminance r <? Binary64.Number_MAX_VALUE)
                    = true)
        by (intros r Hr; apply distance_below_MAX_VALUE; assumption).
      destruct (closest_fold_binary64 luminance Binary64.LUMINANCE_RANGES 50
                  Binary64.Number_MAX_VALUE)
        as [[_ A] | (i & r & N & E & _ & A & B)].
      * reflexivity.
      * intros r Hr. apply (float_ltb_number _ _ (D r Hr)).
      * exfalso.
        pose proof (D _ (or_introl eq_refl)) as D0.
        pose proof (A _ (or_introl eq_refl)) as A0.
        pose proof (float_ltb_leb_trans _ _ _ D0 A0) as C.
        rewrite float_ltb_irrefl in C. discriminate C.
      * rewrite E. destruct (Binary64.findNeighboringGrades luminance) as [lo hi].
        cbn [gi_grade gi_exact]. split; [reflexivity |].
        exists i, r. repeat split; assumption.
Qed.

(** At 0.6799999999999999 the differences to the midpoints of bands 10
    and 20 are the same binary64 number, and the loop keeps grade 10,
    the first of the two in table order. *)
Lemma determineGrade_binary64_witness :
  gi_grade (Binary64.determineGrade Binary64.tiedLuminance) = 10%Z
  /\ gi_exact (Binary64.determineGrade Binary64.tiedLuminance) = false.
Proof.
  destruct (determineGrade_binary64 Binary64.tiedLuminance eq_refl eq_refl)
    as [_ S].
  destruct S as (X & i & r & N & G & A & B).
  - unfold Binary64.LUMINANCE_RANGES. cbn [In]. intros r Hin.
    repeat (destruct Hin as [<- | Hin]); try contradiction; reflexivity.
  - split; [| exact X]. rewrite G.
    pose proof (A _ (or_intror (or_intror (or_introl eq_refl)))) as A10.
    do 12 (destruct i as [| i];
           [cbn [nth_error Binary64.LUMINANCE_RANGES] in N;
            injection N as <-;
            first [reflexivity
                  | discriminate A10
                  | discriminate (B 2%nat _ ltac:(lia) eq_refl)] |]).
    cbn [nth_error Binary64.LUMINANCE_RANGES] in N. destruct i; discriminate N.
Defined.

(** The midpoint of every band is classified as the grade of the band,
    exactly. *)
Lemma determineGrade_midpoints r :
  In r Binary64.LUMINANCE_RANGES ->
  Binary64.determineGrade (Binary64.midpoint r)
  = mkInfo (Binary64.grade r) true Undefined Undefined.
Proof.
  unfold Binary64.LUMINANCE_RANGES. cbn [In]. intros H.
  repeat (destruct H as [<- | H]); try contradiction; reflexivity.
Qed.

Example tiedLuminance_differences :
  Binary64.distance Binary64.tiedLuminance (Binary64.mkRange 10 0.750 0.820)
  = Binary64.distance Binary64.tiedLuminance (Binary64.mkRange 20 0.500 0.650)
  /\ Binary64.determineGrade Binary64.tiedLuminance
     = mkInfo 10 false (Grade 20) (Grade 10).
Proof. split; reflexivity. Qed.

End Binary64Classification.

(** * Further properties *)

(** ** Typed text, validation and parsing *)

Lemma hexClass_hexVal c :
  hexClass c = match hexVal c with Some _ => true | None => false end.
Proof.
  destruct c as [[] [] [] [] [] [] [] []]; reflexivity.
Qed.

Lemma hexVal_not_hash c v : hexVal c = Some v -> Ascii.eqb c "#" = false.
Proof.
  intros E. destruct (Ascii.eqb_spec c "#") as [-> | _]; [discriminate E | reflexivity].
Qed.

Lemma hexVal_upperChar c : hexVal (upperChar c) = hexVal c.
Proof.
  destruct c as [[] [] [] [] [] [] [] []]; reflexivity.
Qed.

Lemma upperChar_idem c : upperChar (upperChar c) = upperChar c.
Proof.
  destruct c as [[] [] [] [] [] [] [] []]; reflexivity.
Qed.

Lemma upperChar_hash c : Ascii.eqb (upperChar c) "#" = Ascii.eqb c "#".
Proof.
  destruct c as [[] [] [] [] [] [] [] []]; reflexivity.
Qed.

Lemma hexVal_digitChar c d :
  hexVal c = Some d -> upperChar (digitChar d) = upperChar c.
Proof.
  destruct c as [[] [] [] [] [] [] [] []]; intros E; vm_compute in E;
    first [discriminate E | inversion E; subst; reflexivity].
Qed.

Lemma hasHash_inv s : hasHash s = true -> exists rest, s = String "#" rest.
Proof.
  destruct s as [| c rest]; [discriminate |].
  destruct (Ascii.eqb_spec c "#") as [-> | Hc]; [intros _; exists rest; reflexivity |].
  destruct c as [[] [] [] [] [] [] [] []];
    first [contradiction Hc; reflexivity | discriminate].
Qed.

Lemma isValidHex_hasHash s : isValidHex s = true -> hasHash s = true.
Proof.
  destruct s as [| c rest]; [discriminate |].
  destruct (Ascii.eqb_spec c "#") as [-> | Hc]; [reflexivity |].
  destruct c as [[] [] [] [] [] [] [] []];
    first [contradiction Hc; reflexivity | discriminate].
Qed.

Lemma isValidHex_body body :
  isValidHex (String "#" body) = true <-> parseBody body <> None.
Proof.
  destruct body as [| c1 [| c2 [| c3 [| c4 [| c5 [| c6 [| c7 body]]]]]]];
    cbn [isValidHex parseBody];
    try (split; [discriminate | intros H; now contradiction H]).
  unfold parseInt16. rewrite !hexClass_hexVal.
  destruct (hexVal c1), (hexVal c2), (hexVal c3), (hexVal c4), (hexVal c5),
    (hexVal c6); cbn [andb]; split; intros H; try discriminate;
    try (contradiction H; reflexivity); reflexivity.
Qed.

(** X1: [isValidHex] accepts exactly the strings [hexToRgb] accepts that are
    written with their ['#']. *)
Theorem isValidHex_iff_hexToRgb (s : string) :
  isValidHex s = true <-> hasHash s = true /\ hexToRgb s <> None.
Proof.
  split.
  - intros V. pose proof (isValidHex_hasHash s V) as H. split; [exact H |].
    destruct (hasHash_inv s H) as [rest ->].
    rewrite hexToRgb_parseBody_hash. apply isValidHex_body, V.
  - intros [H P]. destruct (hasHash_inv s H) as [rest ->].
    rewrite hexToRgb_parseBody_hash in P. apply isValidHex_body, P.
Qed.

Lemma removeHashes_idem s : removeHashes (removeHashes s) = removeHashes s.
Proof.
  induction s as [| c s IH]; [reflexivity |]. cbn [removeHashes].
  destruct (Ascii.eqb c "#") eqn:E; [exact IH |].
  cbn [removeHashes]. rewrite E, IH. reflexivity.
Qed.

Lemma removeHashes_toUpperCase s :
  removeHashes (toUpperCase s) = toUpperCase (removeHashes s).
Proof.
  induction s as [| c s IH]; [reflexivity |]. cbn [removeHashes toUpperCase].
  rewrite upperChar_hash. destruct (Ascii.eqb c "#");
    [exact IH | cbn [toUpperCase]; rewrite IH; reflexivity].
Qed.

Lemma toUpperCase_idem s : toUpperCase (toUpperCase s) = toUpperCase s.
Proof.
  induction s as [| c s IH]; [reflexivity |]. cbn [toUpperCase].
  rewrite upperChar_idem, IH. reflexivity.
Qed.

Lemma formatHexInput_unfold input :
  formatHexInput input = String "#" (toUpperCase (removeHashes input)).
Proof. reflexivity. Qed.

(** X2: the formatted text starts with the only ['#'] it holds, is in upper
    case, and formatting it again changes nothing; the ['#'] signs and the
    case of the typed text do not matter. *)
Theorem formatHexInput_normal_form (input : string) :
  isAscii input = true ->
  (exists body,
     formatHexInput input = String "#" body /\ removeHashes body = body
     /\ toUpperCase body = body)
  /\ formatHexInput (formatHexInput input) = formatHexInput input
  /\ formatHexInput (removeHashes input) = formatHexInput input
  /\ formatHexInput (toUpperCase input) = formatHexInput input.
Proof.
  intros _. rewrite !formatHexInput_unfold. split; [| split; [| split]].
  - exists (toUpperCase (removeHashes input)). split; [reflexivity |].
    split; [| apply toUpperCase_idem].
    rewrite removeHashes_toUpperCase, removeHashes_idem. reflexivity.
  - cbn [removeHashes]. change (Ascii.eqb "#" "#") with true. cbv iota.
    rewrite removeHashes_toUpperCase, removeHashes_idem, toUpperCase_idem.
    reflexivity.
  - rewrite removeHashes_idem. reflexivity.
  - rewrite removeHashes_toUpperCase, toUpperCase_idem. reflexivity.
Qed.

Lemma formatHexInput_normal_form_witness :
  formatHexInput (formatHexInput "#ff#00#ff") = formatHexInput "#ff#00#ff"
  /\ formatHexInput (removeHashes "#ff#00#ff") = formatHexInput "#ff#00#ff".
Proof.
  assert (A : isAscii "#ff#00#ff" = true) by reflexivity.
  destruct (formatHexInput_normal_form "#ff#00#ff" A) as (_ & I & R & _).
  split; assumption.
Defined.

Lemma isHexDigit_upperChar c : isHexDigit (upperChar c) = isHexDigit c.
Proof.
  destruct c as [[] [] [] [] [] [] [] []]; reflexivity.
Qed.

Lemma length_toUpperCase s : String.length (toUpperCase s) = String.length s.
Proof.
  induction s as [| c s IH]; [reflexivity |]. cbn [toUpperCase String.length].
  rewrite IH. reflexivity.
Qed.

Lemma sixHexDigits_toUpperCase s : sixHexDigits (toUpperCase s) = sixHexDigits s.
Proof.
  unfold sixHexDigits. rewrite length_toUpperCase. f_equal.
  induction s as [| c s IH]; [reflexivity |].
  cbn [toUpperCase list_ascii_of_string forallb].
  rewrite isHexDigit_upperChar, IH. reflexivity.
Qed.

Lemma parseBody_toUpperCase body : parseBody (toUpperCase body) = parseBody body.
Proof.
  destruct body as [| c1 [| c2 [| c3 [| c4 [| c5 [| c6 [| c7 body]]]]]]];
    try reflexivity.
  cbn [toUpperCase parseBody]. unfold parseInt16.
  rewrite !hexVal_upperChar. reflexivity.
Qed.

Lemma isValidHex_sixHexDigits body :
  isValidHex (String "#" body) = sixHexDigits body.
Proof.
  pose proof (isValidHex_body body) as V.
  pose proof (parseBody_digits body) as D.
  destruct (isValidHex (String "#" body)), (sixHexDigits body); try reflexivity.
  - symmetry. apply D, V. reflexivity.
  - apply V, D. reflexivity.
Qed.

Lemma hasHash_head c rest : hasHash (String c rest) = Ascii.eqb c "#".
Proof.
  destruct c as [[] [] [] [] [] [] [] []]; reflexivity.
Qed.

Lemma hexToRgb_no_hash s : hasHash s = false -> hexToRgb s = parseBody s.
Proof.
  destruct s as [| c rest]; [reflexivity |].
  destruct c as [[] [] [] [] [] [] [] []]; first [discriminate | reflexivity].
Qed.

Lemma hasHash_removeHashes s : hasHash (removeHashes s) = false.
Proof.
  induction s as [| c s IH]; [reflexivity |]. cbn [removeHashes].
  destruct (Ascii.eqb c "#") eqn:E; [exact IH |].
  rewrite hasHash_head. exact E.
Qed.

(** X3: the formatted text is a valid hex colour exactly when the typed text
    without its ['#'] signs is six hex digits, and [hexToRgb] reads from
    it what it reads from those digits. *)
Theorem formatHexInput_valid (input : string) :
  isAscii input = true ->
  isValidHex (formatHexInput input) = sixHexDigits (removeHashes input)
  /\ hexToRgb (formatHexInput input) = hexToRgb (removeHashes input).
Proof.
  intros _. rewrite formatHexInput_unfold. split.
  - rewrite isValidHex_sixHexDigits. apply sixHexDigits_toUpperCase.
  - rewrite hexToRgb_parseBody_hash, parseBody_toUpperCase.
    symmetry. apply hexToRgb_no_hash, hasHash_removeHashes.
Qed.

Lemma formatHexInput_valid_witness :
  isValidHex (formatHexInput "#7b#c4e8") = true
  /\ hexToRgb (formatHexInput "#7b#c4e8") = Some (mkRGB 123 196 232).
Proof.
  assert (A : isAscii "#7b#c4e8" = true) by reflexivity.
  destruct (formatHexInput_valid "#7b#c4e8" A) as [V P].
  split; [rewrite V | rewrite P]; reflexivity.
Defined.

Lemma parseInt16_digits c1 c2 v :
  parseInt16 c1 c2 = Some v ->
  upperChar (digitChar (v / 16)%Z) = upperChar c1
  /\ upperChar (digitChar (v mod 16)%Z) = upperChar c2.
Proof.
  unfold parseInt16.
  destruct (hexVal c1) as [h |] eqn:E1; [| discriminate].
  destruct (hexVal c2) as [l |] eqn:E2; [| discriminate].
  pose proof (hexVal_range _ _ E1). pose proof (hexVal_range _ _ E2).
  intros E. assert (E' : (16 * h + l)%Z = v) by congruence. subst v.
  replace ((16 * h + l) / 16)%Z with h by (Z.div_mod_to_equations; lia).
  replace ((16 * h + l) mod 16)%Z with l by (Z.div_mod_to_equations; lia).
  split; apply hexVal_digitChar; assumption.
Qed.

Lemma parseInt16_no_hash c1 c2 v :
  parseInt16 c1 c2 = Some v -> Ascii.eqb c1 "#" = false /\ Ascii.eqb c2 "#" = false.
Proof.
  unfold parseInt16.
  destruct (hexVal c1) as [h |] eqn:E1; [| discriminate].
  destruct (hexVal c2) as [l |] eqn:E2; [| discriminate].
  intros _. split; eapply hexVal_not_hash; eassumption.
Qed.

Lemma rgbToHex_parseBody body rgb :
  parseBody body = Some rgb ->
  rgbToHex (red rgb) (green rgb) (blue rgb) = String "#" (toUpperCase body)
  /\ removeHashes body = body.
Proof.
  intros E. destruct (parseBody_range _ _ E) as (Hr & Hg & Hb).
  apply parseBody_inv in E.
  destruct E as (c1 & c2 & c3 & c4 & c5 & c6 & -> & R & G & B).
  rewrite rgbToHex_digits by assumption. unfold hex2. cbn [toUpperCase removeHashes].
  destruct (parseInt16_digits _ _ _ R) as [R1 R2].
  destruct (parseInt16_digits _ _ _ G) as [G1 G2].
  destruct (parseInt16_digits _ _ _ B) as [B1 B2].
  destruct (parseInt16_no_hash _ _ _ R) as [R3 R4].
  destruct (parseInt16_no_hash _ _ _ G) as [G3 G4].
  destruct (parseInt16_no_hash _ _ _ B) as [B3 B4].
  rewrite R1, R2, G1, G2, B1, B2, R3, R4, G3, G4, B3, B4.
  split; reflexivity.
Qed.

(** X4: printing the channels [hexToRgb] read gives the input back in its
    formatted form: upper case, with its ['#']. *)
Theorem rgbToHex_hexToRgb (s : string) (rgb : RGB) :
  hexToRgb s = Some rgb ->
  rgbToHex (red rgb) (green rgb) (blue rgb) = formatHexInput s
  /\ isValidHex (rgbToHex (red rgb) (green rgb) (blue rgb)) = true.
Proof.
  intros E.
  assert (B : exists body, parseBody body = Some rgb
                           /\ formatHexInput s = String "#" (toUpperCase body)).
  { rewrite formatHexInput_unfold. apply hexToRgb_inv in E.
    destruct E as [(rest & -> & E) | [H E]];
      destruct (rgbToHex_parseBody _ _ E) as [_ N].
    - exists rest. split; [exact E |]. cbn [removeHashes].
      change (Ascii.eqb "#" "#") with true. cbv iota. rewrite N. reflexivity.
    - exists s. split; [exact E |]. rewrite N. reflexivity. }
  destruct B as (body & P & F). rewrite F.
  destruct (rgbToHex_parseBody _ _ P) as [X _]. split; [exact X |].
  rewrite X, isValidHex_sixHexDigits, sixHexDigits_toUpperCase.
  apply parseBody_digits. rewrite P. discriminate.
Qed.

Lemma rgbToHex_hexToRgb_witness :
  rgbToHex 123 196 232 = formatHexInput "7bc4e8"
  /\ isValidHex (rgbToHex 123 196 232) = true.
Proof.
  apply (rgbToHex_hexToRgb "7bc4e8" (mkRGB 123 196 232)). reflexivity.
Defined.

Lemma hexToRgb_toUpperCase s : hexToRgb (toUpperCase s) = hexToRgb s.
Proof.
  destruct (hasHash s) eqn:H.
  - destruct (hasHash_inv s H) as [rest ->]. cbn [toUpperCase].
    change (upperChar "#") with "#"%char.
    rewrite !hexToRgb_parseBody_hash. apply parseBody_toUpperCase.
  - rewrite (hexToRgb_no_hash s H), hexToRgb_no_hash.
    + apply parseBody_toUpperCase.
    + destruct s as [| c rest]; [reflexivity |]. cbn [toUpperCase].
      rewrite hasHash_head in *. rewrite upperChar_hash. exact H.
Qed.

(** X5: what [hexToRgb] returns: three channels in [0,255]; the same for a
    text and its upper-case form; the same with and without the leading
    ['#']; and nothing for a text with two leading ['#']. *)
Theorem hexToRgb_result (s : string) :
  isAscii s = true ->
  (forall rgb, hexToRgb s = Some rgb ->
     (0 <= red rgb <= 255)%Z /\ (0 <= green rgb <= 255)%Z
     /\ (0 <= blue rgb <= 255)%Z)
  /\ hexToRgb (toUpperCase s) = hexToRgb s
  /\ (hasHash s = false -> hexToRgb (String "#" s) = hexToRgb s)
  /\ (hasHash s = true -> hexToRgb (String "#" s) = None).
Proof.
  intros _. split; [intros rgb E; eapply hexToRgb_range, E |].
  split; [apply hexToRgb_toUpperCase |]. split.
  - intros H. rewrite hexToRgb_parseBody_hash. symmetry.
    apply hexToRgb_no_hash, H.
  - intros H. destruct (hasHash_inv s H) as [rest ->].
    rewrite hexToRgb_parseBody_hash.
    destruct (parseBody (String "#" rest)) as [rgb |] eqn:P; [| reflexivity].
    apply parseBody_inv in P.
    destruct P as (c1 & c2 & c3 & c4 & c5 & c6 & E & R & _).
    inversion E; subst. apply parseInt16_no_hash in R. destruct R as [R _].
    discriminate R.
Qed.

Lemma hexToRgb_result_witness :
  hexToRgb (toUpperCase "7bc4e8") = hexToRgb "7bc4e8"
  /\ hexToRgb "#7bc4e8" = hexToRgb "7bc4e8".
Proof.
  assert (A : isAscii "7bc4e8" = true) by reflexivity.
  destruct (hexToRgb_result "7bc4e8" A) as (_ & U & H & _).
  split; [exact U | apply H; reflexivity].
Defined.

(** ** Luminance and contrast *)

(** X6: the luminance of a colour with channels in [0,255] lies in [0,1];
    only white has luminance 1 and only black has luminance 0. *)
Theorem calculateLuminance_bounds (r g b : Z) :
  (0 <= r <= 255)%Z -> (0 <= g <= 255)%Z -> (0 <= b <= 255)%Z ->
  0 <= calculateLuminance r g b <= 1
  /\ (calculateLuminance r g b = 1 <-> r = 255%Z /\ g = 255%Z /\ b = 255%Z)
  /\ (calculateLuminance r g b = 0 <-> r = 0%Z /\ g = 0%Z /\ b = 0%Z).
Proof.
  intros Hr Hg Hb.
  destruct (calculateLuminance_range r g b Hr Hg Hb) as (B & W & K).
  split; [exact B |]. split; split.
  - exact W.
  - intros (-> & -> & ->). apply calculateLuminance_white.
  - exact K.
  - intros (-> & -> & ->). apply calculateLuminance_black.
Qed.

Lemma calculateLuminance_bounds_witness :
  0 <= calculateLuminance 123 196 232 <= 1.
Proof.
  apply (calculateLuminance_bounds 123 196 232); lia.
Defined.

Lemma ratio_bounds l1 l2 :
  0 <= l1 <= 1 -> 0 <= l2 <= 1 ->
  1 <= (Rmax l1 l2 + 0.05) / (Rmin l1 l2 + 0.05) <= 21.
Proof.
  intros H1 H2.
  assert (M : Rmin l1 l2 <= Rmax l1 l2)
    by (apply Rle_trans with l1; [apply Rmin_l | apply Rmax_l]).
  assert (Lo : 0 <= Rmin l1 l2) by (apply Rmin_glb; lra).
  assert (Hi : Rmax l1 l2 <= 1) by (apply Rmax_lub; lra).
  set (m := Rmin l1 l2) in *. set (x := Rmax l1 l2) in *.
  assert (P : 0 < m + 0.05) by lra.
  split.
  - apply Rmult_le_reg_r with (m + 0.05); [exact P |].
    unfold Rdiv. rewrite Rmult_assoc, Rinv_l by lra. lra.
  - apply Rmult_le_reg_r with (m + 0.05); [exact P |].
    unfold Rdiv. rewrite Rmult_assoc, Rinv_l by lra. lra.
Qed.

Lemma parsed_luminance s rgb :
  hexToRgb s = Some rgb ->
  0 <= calculateLuminance (red rgb) (green rgb) (blue rgb) <= 1.
Proof.
  intros E. destruct (hexToRgb_range _ _ E) as (Hr & Hg & Hb).
  apply calculateLuminance_range; assumption.
Qed.

(** X8: the contrast ratio of any two strings lies between 1 and 21 and does
    not depend on their order. *)
Theorem calculateContrastRatio_bounds (color1 color2 : string) :
  1 <= calculateContrastRatio color1 color2 <= 21
  /\ calculateContrastRatio color1 color2 = calculateContrastRatio color2 color1.
Proof.
  unfold calculateContrastRatio.
  destruct (hexToRgb color1) as [rgb1 |] eqn:E1,
           (hexToRgb color2) as [rgb2 |] eqn:E2; try (split; [lra | reflexivity]).
  split.
  - apply ratio_bounds; eapply parsed_luminance; eassumption.
  - rewrite Rmax_comm, Rmin_comm. reflexivity.
Qed.

(** X9: the ratio of two parsed colours is 21 exactly for white against
    black, in either order, and it is 1 for a colour against itself. *)
Theorem calculateContrastRatio_extremes (color1 color2 : string) (rgb1 rgb2 : RGB) :
  hexToRgb color1 = Some rgb1 -> hexToRgb color2 = Some rgb2 ->
  (calculateContrastRatio color1 color2 = 21 <->
   (rgb1 = mkRGB 255 255 255 /\ rgb2 = mkRGB 0 0 0)
   \/ (rgb1 = mkRGB 0 0 0 /\ rgb2 = mkRGB 255 255 255))
  /\ (rgb1 = rgb2 -> calculateContrastRatio color1 color2 = 1).
Proof.
  intros E1 E2. unfold calculateContrastRatio. rewrite E1, E2.
  destruct (hexToRgb_range _ _ E1) as (Hr1 & Hg1 & Hb1).
  destruct (hexToRgb_range _ _ E2) as (Hr2 & Hg2 & Hb2).
  destruct (calculateLuminance_range _ _ _ Hr1 Hg1 Hb1) as (B1 & W1 & K1).
  destruct (calculateLuminance_range _ _ _ Hr2 Hg2 Hb2) as (B2 & W2 & K2).
  destruct rgb1 as [r1 g1 b1], rgb2 as [r2 g2 b2]. cbn [red green blue] in *.
  set (l1 := calculateLuminance r1 g1 b1) in *.
  set (l2 := calculateLuminance r2 g2 b2) in *.
  split; [split |].
  - intros E.
    assert (P : 0 < Rmin l1 l2 + 0.05)
      by (assert (0 <= Rmin l1 l2) by (apply Rmin_glb; lra); lra).
    assert (Q : Rmax l1 l2 + 0.05 = 21 * (Rmin l1 l2 + 0.05)).
    { rewrite <- E. unfold Rdiv. rewrite Rmult_assoc, Rinv_l by lra. lra. }
    unfold Rmax, Rmin in Q. destruct (Rle_dec l1 l2).
    + right. assert (l1 = 0) by lra. assert (l2 = 1) by lra.
      destruct K1 as (-> & -> & ->); [assumption |].
      destruct W2 as (-> & -> & ->); [assumption |]. split; reflexivity.
    + left. assert (l2 = 0) by lra. assert (l1 = 1) by lra.
      destruct W1 as (-> & -> & ->); [assumption |].
      destruct K2 as (-> & -> & ->); [assumption |]. split; reflexivity.
  - intros [[X Y] | [X Y]]; inversion X; inversion Y; subst; unfold l1, l2;
      rewrite calculateLuminance_white, calculateLuminance_black;
      unfold Rmax, Rmin; destruct (Rle_dec _ _); lra.
  - intros X.
    assert (L : l1 = l2) by (unfold l1, l2; inversion X; reflexivity).
    rewrite L. unfold Rmax, Rmin. destruct (Rle_dec l2 l2); apply Rdiv_diag; lra.
Qed.

Lemma calculateContrastRatio_extremes_witness :
  calculateContrastRatio "#FFFFFF" "#000000" = 21.
Proof.
  destruct (calculateContrastRatio_extremes "#FFFFFF" "#000000"
              (mkRGB 255 255 255) (mkRGB 0 0 0) eq_refl eq_refl) as [[_ H] _].
  apply H. left. split; reflexivity.
Defined.

(** X10: the contrast checker: the ratio shown is 0 unless both texts are
    valid hex colours, and then lies in [1,21]; with an invalid text all
    five checks fail; passing AAA for normal text implies passing AA for
    normal text, which implies passing AA for large text; swapping the
    two colours does not change the ratio; and whenever an input shows
    its error the ratio is 0. *)
Theorem contrast_checker_compliance (foregroundColor backgroundColor : string) :
  let ratio := checkerRatio foregroundColor backgroundColor in
  (isValidHex foregroundColor = true -> isValidHex backgroundColor = true ->
   1 <= ratio <= 21)
  /\ (isValidHex foregroundColor = false \/ isValidHex backgroundColor = false ->
      ratio = 0 /\ compliance ratio = mkCompliance false false false false false)
  /\ (aaaNormalPass (compliance ratio) = true ->
      aaNormalPass (compliance ratio) = true)
  /\ (aaNormalPass (compliance ratio) = true ->
      aaLargePass (compliance ratio) = true)
  /\ checkerRatio backgroundColor foregroundColor = ratio
  /\ (inputError foregroundColor = true \/ inputError backgroundColor = true ->
      ratio = 0).
Proof.
  cbv zeta. unfold checkerRatio, compliance, geb, inputError.
  cbn [aaaNormalPass aaNormalPass aaLargePass].
  destruct (calculateContrastRatio_bounds foregroundColor backgroundColor)
    as [B S].
  split; [| split; [| split; [| split; [| split]]]].
  - intros -> ->. exact B.
  - intros [-> | ->]; [| rewrite andb_false_r]; cbn [andb];
      (split; [reflexivity |]); repeat settle_cmp; reflexivity.
  - rewrite !leb_true. lra.
  - rewrite !leb_true. lra.
  - rewrite (andb_comm (isValidHex backgroundColor)).
    destruct (isValidHex foregroundColor && isValidHex backgroundColor);
      [symmetry; exact S | reflexivity].
  - intros [H | H]; apply andb_true_iff in H; destruct H as [_ H];
      apply negb_true_iff in H; rewrite H; [| rewrite andb_false_r]; reflexivity.
Qed.

(** The power-law branch at the first channel value above the threshold
    already exceeds the linear branch at the last one below it. *)
Lemma power_branch_above_linear :
  10 / 255 / 12.92 <= Math_pow ((11 / 255 + 0.055) / 1.055) 2.4.
Proof.
  set (a := (11 / 255 + 0.055) / 1.055).
  assert (A : 0.093 <= a <= 0.0931) by (unfold a; lra).
  rewrite Math_pow_Rpower by lra.
  replace 2.4 with (INR 2 + 0.4) by (simpl; lra).
  rewrite Rpower_plus, Rpower_pow by lra.
  set (y := Rpower a 0.4).
  assert (Y0 : 0 < y) by (unfold y, Rpower; apply exp_pos).
  assert (Y5 : y ^ 5 = a ^ 2).
  { rewrite <- (Rpower_pow 5 y) by exact Y0. unfold y.
    rewrite Rpower_mult.
    replace (0.4 * INR 5) with (INR 2) by (simpl; lra).
    apply Rpower_pow. lra. }
  assert (Y : 0.38 <= y).
  { destruct (Rle_lt_dec 0.38 y) as [H | H]; [exact H | exfalso].
    assert (P : y ^ 5 <= 0.38 ^ 5) by (apply pow_incr; lra).
    rewrite Y5 in P. nra. }
  nra.
Qed.

(** The channel transform does not decrease from one channel value to a
    larger one. *)
Lemma linearChannel_mono (c c' : Z) :
  (0 <= c <= c')%Z -> (c' <= 255)%Z ->
  linearChannel (IZR c / 255) <= linearChannel (IZR c' / 255).
Proof.
  intros [H0 H] H255. unfold linearChannel.
  assert (R0 : 0 <= IZR c) by (apply (IZR_le 0); exact H0).
  assert (RR : IZR c <= IZR c') by (apply IZR_le; exact H).
  destruct (leb (IZR c / 255) 0.03928) eqn:E; destruct (leb (IZR c' / 255) 0.03928) eqn:E';
    [apply leb_true in E | apply leb_true in E | apply leb_false in E
    | apply leb_false in E];
    [apply leb_true in E' | apply leb_false in E' | apply leb_true in E'
    | apply leb_false in E'].
  - lra.
  - assert (C10 : (c <= 10)%Z).
    { destruct (Z.le_gt_cases c 10) as [L | G]; [exact L | exfalso].
      assert (X : IZR 11 <= IZR c) by (apply IZR_le; lia). lra. }
    assert (C11 : (11 <= c')%Z).
    { destruct (Z.le_gt_cases 11 c') as [L | G]; [exact L | exfalso].
      assert (X : IZR c' <= IZR 10) by (apply IZR_le; lia). lra. }
    apply IZR_le in C10, C11.
    apply Rle_trans with (10 / 255 / 12.92); [lra |].
    apply Rle_trans with (Math_pow ((11 / 255 + 0.055) / 1.055) 2.4);
      [apply power_branch_above_linear |].
    rewrite !Math_pow_Rpower by (apply Rdiv_lt_0_compat; lra).
    apply Rle_Rpower_l; [lra |].
    split; [apply Rdiv_lt_0_compat; lra |].
    apply Rmult_le_compat_r; lra.
  - lra.
  - rewrite !Math_pow_Rpower by (apply Rdiv_lt_0_compat; lra).
    apply Rle_Rpower_l; [lra |].
    split; [apply Rdiv_lt_0_compat; lra |].
    apply Rmult_le_compat_r; lra.
Qed.

(** X7: raising channels never lowers the luminance. *)
Theorem calculateLuminance_monotone (r g b r' g' b' : Z) :
  (0 <= r <= r')%Z -> (0 <= g <= g')%Z -> (0 <= b <= b')%Z ->
  (r' <= 255)%Z -> (g' <= 255)%Z -> (b' <= 255)%Z ->
  calculateLuminance r g b <= calculateLuminance r' g' b'.
Proof.
  intros Hr Hg Hb Hr' Hg' Hb'. unfold calculateLuminance.
  pose proof (linearChannel_mono r r' Hr Hr').
  pose proof (linearChannel_mono g g' Hg Hg').
  pose proof (linearChannel_mono b b' Hb Hb').
  lra.
Qed.

Lemma calculateLuminance_monotone_witness :
  calculateLuminance 10 10 10 <= calculateLuminance 11 11 11.
Proof. apply calculateLuminance_monotone; lia. Defined.

(** ** Neighbours and classification *)

Ltac neighbor_at i :=
  exists i; do 2 eexists;
  (split; [reflexivity | split; [reflexivity | split; [reflexivity |]]]);
  cbn [rmin]; lra.

Ltac neighbor_index :=
  first [ neighbor_at 0%nat | neighbor_at 1%nat | neighbor_at 2%nat
        | neighbor_at 3%nat | neighbor_at 4%nat | neighbor_at 5%nat
        | neighbor_at 6%nat | neighbor_at 7%nat | neighbor_at 8%nat
        | neighbor_at 9%nat | neighbor_at 10%nat ].

Lemma scanNeighbors_between (luminance : R) :
  0 < luminance <= 1 ->
  exists i hi lo,
    nth_error LUMINANCE_RANGES i = Some hi
    /\ nth_error LUMINANCE_RANGES (S i) = Some lo
    /\ scanNeighbors luminance None LUMINANCE_RANGES
       = (Grade (grade lo), Grade (grade hi))
    /\ rmin lo < luminance <= rmin hi.
Proof.
  intros H. unfold LUMINANCE_RANGES.
  cbn [scanNeighbors rmin grade]. unfold gtb.
  repeat match goal with
    | |- context [ltb ?a luminance] =>
        let E := fresh "E" in
        destruct (ltb a luminance) eqn:E;
        [apply ltb_true in E; try (exfalso; lra); try neighbor_index
        | apply ltb_false in E]
    end.
  exfalso; lra.
Qed.

(** X11: [findNeighboringGrades] on every luminance: at or below 0 the lower
    grade is 100 and the higher one is null; above 1 the lower grade is 0
    and the higher one is null; in between, the two grades are those of
    two consecutive bands of the table whose minima enclose the
    luminance. *)
Theorem findNeighboringGrades_cases (luminance : R) :
  (luminance <= 0 -> findNeighboringGrades luminance = (Grade 100, Null))
  /\ (1 < luminance -> findNeighboringGrades luminance = (Grade 0, Null))
  /\ (0 < luminance <= 1 ->
      exists i hi lo,
        nth_error LUMINANCE_RANGES i = Some hi
        /\ nth_error LUMINANCE_RANGES (S i) = Some lo
        /\ findNeighboringGrades luminance = (Grade (grade lo), Grade (grade hi))
        /\ rmin lo < luminance <= rmin hi).
Proof.
  split; [| split]; intros H.
  - unfold findNeighboringGrades. rewrite sortedRanges_table.
    unfold LUMINANCE_RANGES. cbn [scanNeighbors rmin grade]. unfold gtb.
    repeat settle_cmp. reflexivity.
  - unfold findNeighboringGrades. rewrite sortedRanges_table.
    unfold LUMINANCE_RANGES. cbn [scanNeighbors rmin grade]. unfold gtb.
    repeat settle_cmp. reflexivity.
  - destruct (scanNeighbors_between luminance H) as (i & hi & lo & Hi & Lo & S & B).
    exists i, hi, lo. repeat split; try assumption; try apply B.
    unfold findNeighboringGrades. rewrite sortedRanges_table, S. reflexivity.
Qed.

Lemma findNeighboringGrades_lower (luminance : R) :
  exists lo hi,
    findNeighboringGrades luminance = (Grade lo, hi)
    /\ In lo GRADES /\ hi <> Undefined.
Proof.
  unfold findNeighboringGrades. rewrite sortedRanges_table.
  unfold LUMINANCE_RANGES.
  cbn [scanNeighbors rmin grade]. unfold gtb.
  repeat match goal with
    | |- context [ltb ?a luminance] =>
        destruct (ltb a luminance);
        [do 2 eexists; split; [reflexivity |];
         split; [cbn; tauto | discriminate] |]
    end.
  do 2 eexists; split; [reflexivity |]. split; [cbn; tauto | discriminate].
Qed.

Lemma table_grades : map grade LUMINANCE_RANGES = GRADES.
Proof. reflexivity. Qed.

(** X12: [determineGrade] on every luminance: the grade is one of the table;
    the result is exact precisely when some band holds the luminance,
    and then carries no neighbours; an inexact result carries a lower
    grade of the table, and its higher grade is a grade or null. *)
Theorem determineGrade_result (luminance : R) :
  let info := determineGrade luminance in
  In (gi_grade info) GRADES
  /\ (gi_exact info = true <->
      exists r, In r LUMINANCE_RANGES /\ inBand luminance r)
  /\ (gi_exact info = true ->
      gi_lowerGrade info = Undefined /\ gi_higherGrade info = Undefined)
  /\ (gi_exact info = false ->
      exists lo, gi_lowerGrade info = Grade lo /\ In lo GRADES
                 /\ gi_higherGrade info <> Undefined).
Proof.
  cbv zeta. unfold determineGrade.
  destruct (find _ LUMINANCE_RANGES) as [r0 |] eqn:F.
  - apply find_some in F. destruct F as [Hin Hb]. apply inBand_test in Hb.
    cbn [gi_grade gi_exact gi_lowerGrade gi_higherGrade].
    split; [rewrite <- table_grades; apply in_map, Hin |].
    split; [split; [intros _; exists r0; split; assumption | reflexivity] |].
    split; [intros _; split; reflexivity | discriminate].
  - destruct (findNeighboringGrades_lower luminance) as (lo & hi & N & Hlo & Hhi).
    rewrite N.
    destruct (closest_fold luminance LUMINANCE_RANGES 50 Number_MAX_VALUE)
      as [[E _] | (i & r & Hn & E & _)]; rewrite E;
      cbn [gi_grade gi_exact gi_lowerGrade gi_higherGrade].
    + split; [cbn; tauto |].
      split; [split; [discriminate |] |].
      * intros (r & Hin & Hb). apply (find_none _ _ F) in Hin.
        apply inBand_test in Hb. congruence.
      * split; [discriminate |]. intros _. exists lo. repeat split; assumption.
    + split; [rewrite <- table_grades; apply in_map; eapply nth_error_In, Hn |].
      split; [split; [discriminate |] |].
      * intros (r' & Hin & Hb). apply (find_none _ _ F) in Hin.
        apply inBand_test in Hb. congruence.
      * split; [discriminate |]. intros _. exists lo. repeat split; assumption.
Qed.

(** ** RGB and HSL *)

Ltac split_neq :=
  repeat match goal with
    | H : ?a <> ?b |- _ =>
        match type of a with
        | R => apply Rdichotomy in H; destruct H as [H | H]; try (exfalso; lra)
        end
    end.

(** Name every quotient by a non-constant divisor, keeping its defining
    product. *)
Ltac name_quotients :=
  repeat match goal with
    | |- context [?a / ?d] =>
        lazymatch d with
        | IZR _ => fail
        | Q2R _ => fail
        | _ =>
            let q := fresh "q" in
            let Hq := fresh "Hq" in
            assert (Hq : a / d * d = a) by (field; lra);
            set (q := a / d) in *; clearbody q
        end
    end.

(** Split on the maxima and minima, innermost first. *)
Ltac max_min_cases :=
  unfold Rmax, Rmin;
  repeat match goal with
    | |- context [Rle_dec ?a ?b] =>
        lazymatch a with
        | context [Rle_dec _ _] => fail
        | _ => destruct (Rle_dec a b)
        end
    end.

(** Split on the comparisons, innermost first, dropping the impossible
    cases. *)
Ltac prune_cases :=
  repeat match goal with
    | |- context [ltb ?a ?b] =>
        lazymatch a with
        | context [ltb _ _] => fail
        | _ =>
            let E := fresh "C" in
            destruct (ltb a b) eqn:E;
            [apply ltb_true in E | apply ltb_false in E];
            try (exfalso; nra)
        end
    end.

(** X14: for channels in [0,255], [rgbToHsl] returns a hue in [0,1), a
    saturation and a lightness in [0,1], and hue 0 and saturation 0 for
    a grey. *)
Theorem rgbToHsl_range (r g b : Z) :
  (0 <= r <= 255)%Z -> (0 <= g <= 255)%Z -> (0 <= b <= 255)%Z ->
  let hsl := rgbToHsl r g b in
  0 <= hue hsl < 1 /\ 0 <= sat hsl <= 1 /\ 0 <= light hsl <= 1
  /\ (r = g -> g = b -> hue hsl = 0 /\ sat hsl = 0).
Proof.
  intros Hr Hg Hb. cbv zeta. unfold rgbToHsl.
  pose proof (channel_unit r Hr) as X.
  pose proof (channel_unit g Hg) as Y.
  pose proof (channel_unit b Hb) as Z.
  assert (EQ : r = g -> g = b ->
               IZR r / 255 = IZR g / 255 /\ IZR g / 255 = IZR b / 255)
    by (intros -> ->; split; reflexivity).
  set (x := IZR r / 255) in *. set (y := IZR g / 255) in *.
  set (z := IZR b / 255) in *.
  clearbody x y z. unfold gtb.
  max_min_cases; cmp_cases; cbn [hue sat light]; try lra; split_neq.
  all: name_quotients.
  all: (split; [| split; [| split]];
        [nra | nra | nra
        | intros A B; destruct (EQ A B); first [split; lra | exfalso; lra]]).
Qed.

Lemma rgbToHsl_range_witness :
  let hsl := rgbToHsl 123 196 232 in
  0 <= hue hsl < 1 /\ 0 <= sat hsl <= 1 /\ 0 <= light hsl <= 1.
Proof.
  destruct (rgbToHsl_range 123 196 232) as (H & S & L & _); try lia.
  cbv zeta. repeat split; first [apply H | apply S | apply L].
Defined.

Lemma Math_round_channel (c : Z) (v : R) :
  v * 255 = IZR c -> Math_round (v * 255) = c.
Proof.
  intros ->. unfold Math_round. apply Zfloor_eq. lra.
Qed.

(** X15: converting a colour with channels in [0,255] to HSL and back gives
    the same three channels. *)
Theorem hslToRgb_rgbToHsl (r g b : Z) :
  (0 <= r <= 255)%Z -> (0 <= g <= 255)%Z -> (0 <= b <= 255)%Z ->
  let hsl := rgbToHsl r g b in
  hslToRgb (hue hsl) (sat hsl) (light hsl) = mkRGB r g b.
Proof.
  intros Hr Hg Hb. cbv zeta. unfold rgbToHsl.
  pose proof (channel_unit r Hr) as X.
  pose proof (channel_unit g Hg) as Y.
  pose proof (channel_unit b Hb) as Z.
  assert (Ex : IZR r / 255 * 255 = IZR r) by field.
  assert (Ey : IZR g / 255 * 255 = IZR g) by field.
  assert (Ez : IZR b / 255 * 255 = IZR b) by field.
  set (x := IZR r / 255) in *. set (y := IZR g / 255) in *.
  set (z := IZR b / 255) in *.
  clearbody x y z. unfold gtb.
  max_min_cases; cmp_cases; cbn [hue sat light]; try lra; split_neq.
  all: name_quotients.
  all: unfold hslToRgb.
  all: match goal with
       | |- context [eqb ?s 0] =>
           let C := fresh "C" in
           destruct (eqb s 0) eqn:C; [apply eqb_true in C | apply eqb_false in C];
           try (exfalso; nra)
       end.
  all: try match goal with
       | |- context [if ltb ?l 0.5 then ?A else ?B] =>
           let Q := fresh "Q" in
           first
             [ assert (Q : (if ltb l 0.5 then A else B) = x)
                 by (let C := fresh "C" in
                     destruct (ltb l 0.5) eqn:C;
                     [apply ltb_true in C | apply ltb_false in C]; nra)
             | assert (Q : (if ltb l 0.5 then A else B) = y)
                 by (let C := fresh "C" in
                     destruct (ltb l 0.5) eqn:C;
                     [apply ltb_true in C | apply ltb_false in C]; nra)
             | assert (Q : (if ltb l 0.5 then A else B) = z)
                 by (let C := fresh "C" in
                     destruct (ltb l 0.5) eqn:C;
                     [apply ltb_true in C | apply ltb_false in C]; nra) ];
           rewrite Q; clear Q
       end.
  all: cbv beta iota zeta.
  all: f_equal; apply Math_round_channel;
       [rewrite <- Ex | rewrite <- Ey | rewrite <- Ez]; apply Rmult_eq_compat_r.
  all: try lra.
  all: unfold hue2rgb, gtb; cbv zeta; prune_cases; nra.
Qed.

Lemma hslToRgb_rgbToHsl_witness :
  let hsl := rgbToHsl 123 196 232 in
  hslToRgb (hue hsl) (sat hsl) (light hsl) = mkRGB 123 196 232.
Proof. apply hslToRgb_rgbToHsl; lia. Defined.

(** ** Colour synthesis *)

Lemma blendedFactor_unit (g : Z) :
  (0 < g < 100)%Z ->
  0 < Math_pow (IZR g / 100) 1.6 * 0.7
      + IZR g / 100 * (IZR g / 100) * (IZR g / 100) * 0.3 < 1.
Proof.
  intros Hg.
  assert (Hn : 0 < IZR g / 100 < 1).
  { assert (1 <= g <= 99)%Z as [L U] by lia.
    apply IZR_le in L, U. lra. }
  assert (P : 0 < Math_pow (IZR g / 100) 1.6 < 1)
    by (split; [apply Math_pow_pos; lra | apply Math_pow_lt_one; lra]).
  set (n := IZR g / 100) in *. set (c := Math_pow n 1.6) in *.
  assert (C2 : 0 < n * n < 1) by (split; nra).
  assert (C : 0 < n * n * n < 1) by (split; nra).
  lra.
Qed.

Lemma adjustSaturationForPastel_unit (saturation luminance : R) (g : Z) :
  (0 <= g <= 100)%Z ->
  0 <= adjustSaturationForPastel saturation luminance g <= 0.7.
Proof.
  intros Hg. unfold adjustSaturationForPastel.
  destruct (Z.eqb_spec g 0) as [E | N0]; [cbn [orb]; lra |].
  destruct (Z.eqb_spec g 100) as [E | N100]; [cbn [orb]; lra |].
  cbn [orb]. cbv zeta.
  pose proof (blendedFactor_unit g ltac:(lia)) as B.
  set (bf := Math_pow (IZR g / 100) 1.6 * 0.7
             + IZR g / 100 * (IZR g / 100) * (IZR g / 100) * 0.3) in *.
  assert (S : 0.08 <= Rmax saturation 0.08) by apply Rmax_r.
  unfold Rmin. destruct (Rle_dec _ _); nra.
Qed.

(** X16: the adjusted saturation lies in [0, 0.7] whatever saturation comes in,
    is at least 0.036 at the grades strictly between 0 and 100, never
    decreases when the incoming saturation grows, and does not depend on
    the luminance argument. *)
Theorem adjustSaturationForPastel_range
    (saturation saturation' luminance luminance' : R) (g : Z) :
  (0 <= g <= 100)%Z ->
  0 <= adjustSaturationForPastel saturation luminance g <= 0.7
  /\ (g <> 0%Z -> g <> 100%Z ->
      0.036 <= adjustSaturationForPastel saturation luminance g)
  /\ (saturation <= saturation' ->
      adjustSaturationForPastel saturation luminance g
      <= adjustSaturationForPastel saturation' luminance g)
  /\ adjustSaturationForPastel saturation luminance' g
     = adjustSaturationForPastel saturation luminance g.
Proof.
  intros Hg. split; [apply adjustSaturationForPastel_unit, Hg |].
  unfold adjustSaturationForPastel.
  destruct (Z.eqb_spec g 0) as [E | N0];
    [cbn [orb]; repeat split; intros; first [lra | contradiction] |].
  destruct (Z.eqb_spec g 100) as [E | N100];
    [cbn [orb]; repeat split; intros; first [lra | contradiction] |].
  cbn [orb]. cbv zeta.
  pose proof (blendedFactor_unit g ltac:(lia)) as B.
  set (bf := Math_pow (IZR g / 100) 1.6 * 0.7
             + IZR g / 100 * (IZR g / 100) * (IZR g / 100) * 0.3) in *.
  assert (S : 0.08 <= Rmax saturation 0.08) by apply Rmax_r.
  split; [| split; [| reflexivity]].
  - intros _ _. unfold Rmin. destruct (Rle_dec _ _); nra.
  - intros L.
    assert (M : Rmax saturation 0.08 <= Rmax saturation' 0.08).
    { apply Rmax_lub; [apply Rle_trans with saturation'; [exact L | apply Rmax_l]
                      | apply Rmax_r]. }
    apply Rle_min_compat_r. nra.
Qed.

Lemma adjustSaturationForPastel_range_witness :
  0 <= adjustSaturationForPastel 0.9 0.179 50 <= 0.7.
Proof.
  apply (adjustSaturationForPastel_range 0.9 0.9 0.179 0.179 50). lia.
Defined.

Lemma determineGrade_inBand (luminance : R) (r : GradeRange) :
  In r LUMINANCE_RANGES -> inBand luminance r ->
  determineGrade luminance = mkInfo (grade r) true Undefined Undefined.
Proof.
  intros Hin Hb. unfold determineGrade.
  destruct (find _ LUMINANCE_RANGES) as [r0 |] eqn:F.
  - apply find_some in F. destruct F as [Hin0 Hb0]. apply inBand_test in Hb0.
    rewrite (bands_disjoint luminance r r0 Hin Hin0 Hb Hb0). reflexivity.
  - apply (find_none _ _ F) in Hin. apply inBand_test in Hb. congruence.
Qed.

(** X17: the luminance [generatePalette] aims at for a band lies inside the
    band, so it classifies, exactly, as the band's own grade. *)
Theorem targetLuminanceOf_inBand (range : GradeRange) :
  In range LUMINANCE_RANGES ->
  inBand (targetLuminanceOf range) range
  /\ determineGrade (targetLuminanceOf range)
     = mkInfo (grade range) true Undefined Undefined.
Proof.
  intros Hin.
  assert (B : inBand (targetLuminanceOf range) range).
  { assert (M : rmin range <= rmax range).
    { unfold LUMINANCE_RANGES in Hin. cbn [In] in Hin.
      repeat (destruct Hin as [<- | Hin]); try contradiction; cbn [rmin rmax]; lra. }
    unfold inBand, targetLuminanceOf.
    destruct (grade range <=? 20)%Z; [lra |].
    destruct (grade range <=? 40)%Z; lra. }
  split; [exact B | apply determineGrade_inBand; assumption].
Qed.

Lemma targetLuminanceOf_inBand_witness :
  inBand (targetLuminanceOf (mkRange 50 0.175 0.183)) (mkRange 50 0.175 0.183).
Proof.
  apply targetLuminanceOf_inBand. unfold LUMINANCE_RANGES. cbn [In]. tauto.
Defined.

Lemma initialMid_unit target : 0.2 <= initialMid target <= 0.95.
Proof.
  unfold initialMid, gtb. cmp_cases; lra.
Qed.

(** The loop never leaves the open interval it is started in. *)
Lemma bisect_between (hue saturation target tolerance : R) (n : nat) :
  forall low high mid,
    low < mid < high ->
    exists m, low < m < high
              /\ bisect n hue saturation target tolerance low high mid
                 = lightnessColor hue saturation m.
Proof.
  induction n as [| n IH]; intros low high mid H.
  - exists mid. split; [lra | reflexivity].
  - cbn [bisect]. destruct (ltb _ tolerance).
    + exists mid. split; [lra | reflexivity].
    + destruct (gtb _ target).
      * destruct (IH low mid ((low + mid) / 2)) as (m & Hm & E); [lra |].
        exists m. split; [lra | exact E].
      * destruct (IH mid high ((mid + high) / 2)) as (m & Hm & E); [lra |].
        exists m. split; [lra | exact E].
Qed.

(** X18: [generateColorWithLuminance] returns the colour of a lightness
    strictly between 0 and 1.  That lightness is the starting one when
    its luminance is within the tolerance of the target; otherwise the
    search moves to the darker side of the starting lightness when its
    luminance exceeds the target and to the lighter side when it does
    not, and stays there. *)
Theorem generateColorWithLuminance_lightness
    (hue saturation target : R) (grade : option Z) :
  let adjusted :=
    match grade with
    | Some g => adjustSaturationForPastel saturation target g
    | None => saturation
    end in
  let tolerance := toleranceFor grade in
  let start := initialMid target in
  exists m,
    0 < m < 1
    /\ generateColorWithLuminance hue saturation target grade
       = lightnessColor hue adjusted m
    /\ (within hue adjusted target tolerance start -> m = start)
    /\ (~ within hue adjusted target tolerance start ->
        (target < lightnessLuminance hue adjusted start -> m < start)
        /\ (lightnessLuminance hue adjusted start <= target -> start < m)).
Proof.
  intros adjusted tolerance start.
  pose proof (initialMid_unit target) as M. fold start in M.
  unfold generateColorWithLuminance, maxIterations. fold adjusted tolerance start.
  cbn [bisect]. fold (lightnessLuminance hue adjusted start).
  unfold within.
  destruct (ltb _ tolerance) eqn:T.
  - apply ltb_true in T. exists start.
    split; [lra |]. split; [reflexivity |].
    split; [reflexivity | intros N; contradiction].
  - apply ltb_false in T. unfold gtb.
    destruct (ltb target (lightnessLuminance hue adjusted start)) eqn:C.
    + apply ltb_true in C.
      destruct (bisect_between hue adjusted target tolerance 29 0 start
                  ((0 + start) / 2)) as (m & Hm & E); [lra |].
      exists m. split; [lra |]. split; [exact E |].
      split; [intros W; lra |]. intros _. split; [intros _; lra | intros L; lra].
    + apply ltb_false in C.
      destruct (bisect_between hue adjusted target tolerance 29 start 1
                  ((start + 1) / 2)) as (m & Hm & E); [lra |].
      exists m. split; [lra |]. split; [exact E |].
      split; [intros W; lra |]. intros _. split; [intros L; lra | intros _; lra].
Qed.

Lemma rgbToHex_valid (r g b : Z) :
  (0 <= r <= 255)%Z -> (0 <= g <= 255)%Z -> (0 <= b <= 255)%Z ->
  hexToRgb (rgbToHex r g b) = Some (mkRGB r g b)
  /\ isValidHex (rgbToHex r g b) = true.
Proof.
  intros Hr Hg Hb.
  assert (P : hexToRgb (rgbToHex r g b) = Some (mkRGB r g b)).
  { rewrite rgbToHex_digits by assumption.
    unfold hex2. cbn [toUpperCase hexToRgb].
    rewrite !parseInt16_hex2 by assumption. reflexivity. }
  split; [exact P |].
  rewrite rgbToHex_digits in * by assumption.
  apply isValidHex_body. rewrite <- hexToRgb_parseBody_hash, P. discriminate.
Qed.

Lemma lightnessColor_valid (hue saturation mid : R) :
  0 <= hue <= 1 -> 0 <= saturation <= 1 -> 0 <= mid <= 1 ->
  hexToRgb (lightnessColor hue saturation mid) = Some (hslToRgb hue saturation mid)
  /\ isValidHex (lightnessColor hue saturation mid) = true
  /\ wellFormedHex (lightnessColor hue saturation mid) = true.
Proof.
  intros Hh Hs Hm. unfold lightnessColor. cbv zeta.
  destruct (hslToRgb_range hue saturation mid Hh Hs Hm) as (Hr & Hg & Hb).
  destruct (rgbToHex_valid _ _ _ Hr Hg Hb) as [P V].
  split; [| split; [exact V | apply rgbToHex_wellFormed; assumption]].
  rewrite P. destruct (hslToRgb hue saturation mid); reflexivity.
Qed.

Lemma bisect_in_unit (hue saturation target tolerance : R) (n : nat) :
  forall low high mid,
    0 <= low <= mid -> mid <= high <= 1 ->
    exists m, 0 <= m <= 1
              /\ bisect n hue saturation target tolerance low high mid
                 = lightnessColor hue saturation m.
Proof.
  induction n as [| n IH]; intros low high mid L H.
  - exists mid. split; [lra | reflexivity].
  - cbn [bisect]. destruct (ltb _ tolerance).
    + exists mid. split; [lra | reflexivity].
    + destruct (gtb _ target); apply IH; lra.
Qed.

Lemma generateColorWithLuminance_valid_aux
    (hue saturation target : R) (g : Z) :
  0 <= hue <= 1 -> (0 <= g <= 100)%Z ->
  isValidHex (generateColorWithLuminance hue saturation target (Some g)) = true
  /\ hexToRgb (generateColorWithLuminance hue saturation target (Some g)) <> None.
Proof.
  intros Hh Hg. unfold generateColorWithLuminance.
  pose proof (adjustSaturationForPastel_unit saturation target g Hg) as A.
  pose proof (initialMid_unit target) as M.
  destruct (bisect_in_unit hue (adjustSaturationForPastel saturation target g)
              target (toleranceFor (Some g)) maxIterations
              0 1 (initialMid target)) as (m & Hm & E); try lra.
  rewrite E.
  destruct (lightnessColor_valid hue (adjustSaturationForPastel saturation target g)
              m Hh ltac:(lra) Hm) as (P & V & W).
  split; [exact V |]. rewrite P. discriminate.
Qed.

(** X19: for a hue in [0,1] and a grade of the 0..100 scale, or without a
    grade a saturation in [0,1], [generateColorWithLuminance] returns a
    valid hex colour: a ['#'] and six upper-case hex digits, whatever the
    target is and whether or not the search converges. *)
Theorem generateColorWithLuminance_valid
    (hue saturation target : R) (grade : option Z) :
  0 <= hue <= 1 ->
  match grade with
  | Some g => (0 <= g <= 100)%Z
  | None => 0 <= saturation <= 1
  end ->
  let color := generateColorWithLuminance hue saturation target grade in
  isValidHex color = true /\ wellFormedHex color = true
  /\ hexToRgb color <> None.
Proof.
  intros Hh Hg. cbv zeta. unfold generateColorWithLuminance.
  set (adjusted := match grade with
                   | Some g => adjustSaturationForPastel saturation target g
                   | None => saturation
                   end).
  assert (A : 0 <= adjusted <= 1).
  { unfold adjusted. destruct grade as [g |]; [| exact Hg].
    pose proof (adjustSaturationForPastel_unit saturation target g Hg). lra. }
  pose proof (initialMid_unit target) as M.
  destruct (bisect_in_unit hue adjusted target (toleranceFor grade) maxIterations
              0 1 (initialMid target)) as (m & Hm & E); try lra.
  rewrite E.
  destruct (lightnessColor_valid hue adjusted m Hh A Hm) as (P & V & W).
  split; [exact V |]. split; [exact W |]. rewrite P. discriminate.
Qed.

Lemma generateColorWithLuminance_valid_witness :
  isValidHex (generateColorWithLuminance 0.5 0.5 0.179 (Some 50%Z)) = true.
Proof.
  apply (generateColorWithLuminance_valid 0.5 0.5 0.179 (Some 50%Z)).
  - lra.
  - lia.
Defined.

(** ** Entries of the palette *)

Lemma table_grade_range (range : GradeRange) :
  In range LUMINANCE_RANGES -> (0 <= grade range <= 100)%Z.
Proof.
  unfold LUMINANCE_RANGES. cbn [In]. intros H.
  repeat (destruct H as [<- | H]); try contradiction; cbn [grade]; lia.
Qed.

Lemma rgbToHsl_unit (r g b : Z) :
  (0 <= r <= 255)%Z -> (0 <= g <= 255)%Z -> (0 <= b <= 255)%Z ->
  0 <= hue (rgbToHsl r g b) <= 1.
Proof.
  intros Hr Hg Hb. unfold rgbToHsl.
  pose proof (channel_unit r Hr) as X.
  pose proof (channel_unit g Hg) as Y.
  pose proof (channel_unit b Hb) as Z.
  set (x := IZR r / 255) in *. set (y := IZR g / 255) in *.
  set (z := IZR b / 255) in *.
  clearbody x y z. unfold gtb.
  max_min_cases; cmp_cases; cbn [hue]; try lra; split_neq.
  all: name_quotients.
  all: nra.
Qed.

(** X20: every entry of the palette of an accepted input has a colour that
    [hexToRgb] parses and a luminance, in [0,1], that is the luminance of
    that colour; the colour of an entry that is not the input colour is a
    valid hex colour; the entry marked as the input colour carries the
    upper-cased input and the grade of an exact classification. *)
Theorem generatePalette_entries (hexColor : string) (e : PaletteEntry) :
  hexToRgb hexColor <> None ->
  In e (palette (generatePalette hexColor)) ->
  (exists rgb,
     hexToRgb (pe_color e) = Some rgb
     /\ pe_luminance e = calculateLuminance (red rgb) (green rgb) (blue rgb))
  /\ 0 <= pe_luminance e <= 1
  /\ (pe_isInputColor e = false -> isValidHex (pe_color e) = true)
  /\ (pe_isInputColor e = true ->
      pe_color e = toUpperCase hexColor
      /\ pe_grade e = gi_grade (inputGradeInfo (generatePalette hexColor))
      /\ gi_exact (inputGradeInfo (generatePalette hexColor)) = true).
Proof.
  intros H. destruct (hexToRgb hexColor) as [rgb |] eqn:E; [clear H | contradiction].
  rewrite (generatePalette_valid _ _ E). cbv zeta. cbn [palette inputGradeInfo].
  destruct (hexToRgb_range _ _ E) as (Hr & Hg & Hb).
  pose proof (rgbToHsl_unit _ _ _ Hr Hg Hb) as Hh.
  pose proof (parsed_luminance _ _ E) as Li.
  set (lum := calculateLuminance _ _ _) in *.
  set (hsl := rgbToHsl _ _ _) in *.
  intros Hin. apply in_map_iff in Hin. destruct Hin as (range & <- & Hin).
  pose proof (table_grade_range range Hin) as Gr.
  unfold paletteEntry.
  destruct ((grade range =? gi_grade (determineGrade lum))%Z
            && gi_exact (determineGrade lum)) eqn:F.
  - apply andb_true_iff in F. destruct F as [F1 F2]. apply Z.eqb_eq in F1.
    cbn [pe_color pe_luminance pe_isInputColor pe_grade].
    split; [exists rgb; split; [rewrite hexToRgb_toUpperCase; exact E | reflexivity] |].
    split; [exact Li |]. split; [discriminate |].
    intros _. repeat split; assumption.
  - destruct (grade range =? 0)%Z;
      [| destruct (grade range =? 100)%Z];
      cbn [pe_color pe_luminance pe_isInputColor pe_grade].
    + split; [exists (mkRGB 255 255 255); split;
              [reflexivity | cbn [red green blue]; rewrite calculateLuminance_white; lra] |].
      split; [lra |]. split; [reflexivity | discriminate].
    + split; [exists (mkRGB 0 0 0); split;
              [reflexivity | cbn [red green blue]; rewrite calculateLuminance_black; lra] |].
      split; [lra |]. split; [reflexivity | discriminate].
    + destruct (generateColorWithLuminance_valid_aux (hue hsl) (sat hsl)
                  (targetLuminanceOf range) (grade range) Hh Gr) as (V & P).
      set (color := generateColorWithLuminance _ _ _ _) in *.
      destruct (hexToRgb color) as [actual |] eqn:A; [| contradiction P; reflexivity].
      split; [exists actual; split; reflexivity |].
      split; [unfold lum; eapply parsed_luminance; exact A |].
      split; [intros _; exact V | discriminate].
Qed.

Lemma white_first_entry :
  In (mkEntry 0 "#FFFFFF" 1 true) (palette (generatePalette "#FFFFFF")).
Proof.
  assert (W : hexToRgb "#FFFFFF" = Some (mkRGB 255 255 255)) by reflexivity.
  rewrite (generatePalette_valid _ _ W). cbv zeta. cbn [red green blue palette].
  rewrite calculateLuminance_white, determineGrade_white.
  left. reflexivity.
Qed.

Lemma generatePalette_entries_witness :
  0 <= pe_luminance (mkEntry 0 "#FFFFFF" 1 true) <= 1
  /\ (pe_isInputColor (mkEntry 0 "#FFFFFF" 1 true) = true ->
      pe_color (mkEntry 0 "#FFFFFF" 1 true) = toUpperCase "#FFFFFF"
      /\ pe_grade (mkEntry 0 "#FFFFFF" 1 true)
         = gi_grade (inputGradeInfo (generatePalette "#FFFFFF"))
      /\ gi_exact (inputGradeInfo (generatePalette "#FFFFFF")) = true).
Proof.
  assert (A : hexToRgb "#FFFFFF" <> None) by discriminate.
  destruct (generatePalette_entries "#FFFFFF" (mkEntry 0 "#FFFFFF" 1 true) A
              white_first_entry) as (_ & L & _ & I).
  split; assumption.
Defined.

Lemma one_band_of_grade (r0 : GradeRange) :
  In r0 LUMINANCE_RANGES ->
  filter (fun range => (grade range =? grade r0)%Z) LUMINANCE_RANGES = [r0].
Proof.
  unfold LUMINANCE_RANGES. cbn [In]. intros H.
  repeat (destruct H as [<- | H]); try contradiction; reflexivity.
Qed.

Lemma filter_false {A} (l : list A) : filter (fun _ => false) l = [].
Proof. induction l as [| x l IH]; [reflexivity | exact IH]. Qed.

(** X21: the entries marked as the input colour: exactly one when the input
    classifies exactly, carrying the classified grade, the upper-cased
    input and the input's luminance; none otherwise. *)
Theorem generatePalette_input_entry (hexColor : string) (rgb : RGB) :
  hexToRgb hexColor = Some rgb ->
  let result := generatePalette hexColor in
  let info := inputGradeInfo result in
  info = determineGrade (calculateLuminance (red rgb) (green rgb) (blue rgb))
  /\ filter pe_isInputColor (palette result)
     = if gi_exact info
       then [mkEntry (gi_grade info) (toUpperCase hexColor)
                     (calculateLuminance (red rgb) (green rgb) (blue rgb)) true]
       else [].
Proof.
  intros E. cbv zeta. rewrite (generatePalette_valid _ _ E). cbv zeta.
  cbn [palette inputGradeInfo]. split; [reflexivity |].
  set (lum := calculateLuminance _ _ _).
  set (hsl := rgbToHsl _ _ _).
  rewrite filter_map_comm.
  rewrite (filter_ext _ (fun range =>
             (grade range =? gi_grade (determineGrade lum))%Z
             && gi_exact (determineGrade lum)))
    by (intros r; apply paletteEntry_isInputColor).
  destruct (gi_exact (determineGrade lum)) eqn:X.
  - destruct (determineGrade_exact_band lum X) as (r0 & Hin & G & _).
    rewrite G.
    rewrite (filter_ext _ (fun range => (grade range =? grade r0)%Z))
      by (intros r; apply andb_true_r).
    rewrite (one_band_of_grade r0 Hin). cbn [map]. unfold paletteEntry.
    rewrite G, X, Z.eqb_refl. reflexivity.
  - rewrite (filter_ext _ (fun _ => false)) by (intros r; apply andb_false_r).
    rewrite filter_false. reflexivity.
Qed.

Lemma generatePalette_input_entry_witness :
  filter pe_isInputColor (palette (generatePalette "#FFFFFF"))
  = [mkEntry 0 "#FFFFFF" 1 true].
Proof.
  destruct (generatePalette_input_entry "#FFFFFF" (mkRGB 255 255 255) eq_refl)
    as [I F].
  cbv zeta in *. rewrite F, I. cbn [red green blue].
  rewrite calculateLuminance_white, determineGrade_white. reflexivity.
Defined.

(** ** The palette view *)

(** X22: in the view of the palette of an accepted input, the look-up of the
    target range of an entry always finds the band of the entry's grade,
    and exactly one entry is the active one. *)
Theorem palette_view (hexColor : string) :
  hexToRgb hexColor <> None ->
  let result := generatePalette hexColor in
  (forall e, In e (palette result) ->
     exists range, rangeOf e = Some range /\ grade range = pe_grade e
                   /\ In range LUMINANCE_RANGES)
  /\ List.length
       (filter (fun e => isActive e (Some (inputGradeInfo result))) (palette result))
     = 1%nat.
Proof.
  intros H. destruct (hexToRgb hexColor) as [rgb |] eqn:E; [clear H | contradiction].
  cbv zeta. rewrite (generatePalette_valid _ _ E). cbv zeta.
  cbn [palette inputGradeInfo].
  set (lum := calculateLuminance _ _ _).
  set (hsl := rgbToHsl _ _ _).
  split.
  - intros e Hin. apply in_map_iff in Hin. destruct Hin as (r0 & <- & Hin).
    unfold rangeOf. rewrite paletteEntry_grade.
    destruct (find (fun range => (grade range =? grade r0)%Z) LUMINANCE_RANGES)
      as [range |] eqn:F.
    + apply find_some in F. destruct F as [Hr Hg]. apply Z.eqb_eq in Hg.
      exists range. repeat split; assumption.
    + apply (find_none _ _ F) in Hin. rewrite Z.eqb_refl in Hin. discriminate.
  - rewrite filter_map_comm, length_map. unfold isActive.
    rewrite (filter_ext _ (fun range =>
               (grade range =? gi_grade (determineGrade lum))%Z))
      by (intros r; rewrite paletteEntry_grade; reflexivity).
    assert (G : In (gi_grade (determineGrade lum)) GRADES).
    { unfold determineGrade.
      destruct (find _ LUMINANCE_RANGES) as [r0 |] eqn:F.
      - apply find_some in F. destruct F as [Hin _].
        cbn [gi_grade]. rewrite <- table_grades. apply in_map, Hin.
      - destruct (findNeighboringGrades lum) as [lo hi].
        destruct (closest_fold lum LUMINANCE_RANGES 50 Number_MAX_VALUE)
          as [[C _] | (i & r & Hn & C & _)]; rewrite C; cbn [gi_grade].
        + cbn. tauto.
        + rewrite <- table_grades. apply in_map. eapply nth_error_In, Hn. }
    rewrite <- table_grades in G. apply in_map_iff in G.
    destruct G as (r0 & <- & Hin).
    rewrite (one_band_of_grade r0 Hin). reflexivity.
Qed.

Lemma palette_view_witness :
  List.length
    (filter (fun e => isActive e (Some (inputGradeInfo (generatePalette "#7BC4E8"))))
            (palette (generatePalette "#7BC4E8")))
  = 1%nat.
Proof.
  apply (palette_view "#7BC4E8"). discriminate.
Defined.

(** ** The effect on the typed colour *)

Lemma isValidHex_length s : isValidHex s = true -> String.length s = 7%nat.
Proof.
  intros V. destruct (hasHash_inv s (isValidHex_hasHash s V)) as [body ->].
  destruct body as [| c1 [| c2 [| c3 [| c4 [| c5 [| c6 [| c7 body]]]]]]];
    first [discriminate V | reflexivity].
Qed.

Lemma append_empty_r s : (s ++ "")%string = s.
Proof.
  induction s as [| c s IH]; [reflexivity |]. cbn [append]. rewrite IH. reflexivity.
Qed.

Lemma isValidHex_accepted s : isValidHex s = true -> hexToRgb s <> None.
Proof.
  intros V. destruct (hasHash_inv s (isValidHex_hasHash s V)) as [body ->].
  rewrite hexToRgb_parseBody_hash. apply isValidHex_body, V.
Qed.

Lemma generatePalette_length s :
  hexToRgb s <> None -> List.length (palette (generatePalette s)) = 12%nat.
Proof.
  intros H. destruct (hexToRgb s) as [rgb |] eqn:E; [| contradiction].
  rewrite (generatePalette_valid _ _ E). cbv zeta. cbn [palette].
  rewrite length_map. reflexivity.
Qed.

(** An inexact classification of a luminance in [0,1] has both
    neighbours, two grades of the table. *)
Lemma inexact_neighbors luminance :
  0 <= luminance <= 1 ->
  gi_exact (determineGrade luminance) = false ->
  exists lo hi,
    In lo GRADES /\ In hi GRADES
    /\ gi_lowerGrade (determineGrade luminance) = Grade lo
    /\ gi_higherGrade (determineGrade luminance) = Grade hi.
Proof.
  intros Hl X.
  assert (P : 0 < luminance <= 1).
  { destruct (Req_dec_T luminance 0) as [-> | N]; [| lra].
    rewrite determineGrade_black in X. discriminate X. }
  destruct (scanNeighbors_between luminance P) as (i & hi & lo & Hi & Lo & S & _).
  apply nth_error_In in Hi, Lo.
  exists (grade lo), (grade hi).
  split; [rewrite <- table_grades; apply in_map, Lo |].
  split; [rewrite <- table_grades; apply in_map, Hi |].
  revert X. unfold determineGrade.
  destruct (find _ LUMINANCE_RANGES) as [r0 |]; [discriminate |].
  destruct (fold_left _ _ _) as [closest d].
  unfold findNeighboringGrades. rewrite sortedRanges_table, S.
  intros _. split; reflexivity.
Qed.

(** X23: when the typed colour is a valid hex colour, the effect hides the
    error, shows the 12-entry palette of that colour, and shows the
    warning exactly when the classification is inexact; the warning is
    then always the one that names the two neighbouring grades. *)
Theorem updatePalette_valid (hexColor : string) (st : ViewState) :
  isValidHex hexColor = true ->
  let st' := updatePalette hexColor st in
  let info := inputGradeInfo (generatePalette hexColor) in
  v_showError st' = false
  /\ v_palette st' = palette (generatePalette hexColor)
  /\ List.length (v_palette st') = 12%nat
  /\ v_inputGradeInfo st' = Some info
  /\ v_showWarning st' = negb (gi_exact info)
  /\ (v_showWarning st' = true ->
      exists lo hi,
        In lo GRADES /\ In hi GRADES
        /\ v_warningText st'
           = ("Your color falls between grades " ++ numberText lo ++ " and "
              ++ numberText hi ++ ". Using closest grade "
              ++ numberText (gi_grade info) ++ ".")%string).
Proof.
  intros V. cbv zeta. unfold updatePalette.
  pose proof (isValidHex_length _ V) as L.
  pose proof (isValidHex_accepted _ V) as A.
  rewrite V, L. cbn [Nat.leb negb andb]. unfold padEnd. rewrite L.
  cbn [Nat.sub repeatChar]. rewrite append_empty_r. cbv zeta.
  cbn [v_showError v_palette v_inputGradeInfo v_showWarning v_warningText].
  rewrite andb_true_r.
  split; [reflexivity |]. split; [reflexivity |].
  split; [apply generatePalette_length, A |].
  split; [reflexivity |]. split; [reflexivity |].
  destruct (hexToRgb hexColor) as [rgb |] eqn:E; [| contradiction].
  rewrite (generatePalette_valid _ _ E). cbv zeta. cbn [inputGradeInfo].
  pose proof (parsed_luminance _ _ E) as B.
  set (lum := calculateLuminance _ _ _) in *.
  destruct (gi_exact (determineGrade lum)) eqn:X; cbn [negb]; [discriminate |].
  intros _. destruct (inexact_neighbors lum B X) as (lo & hi & Hlo & Hhi & Gl & Gh).
  exists lo, hi. split; [exact Hlo |]. split; [exact Hhi |].
  unfold warningTextOf. rewrite Gl, Gh. reflexivity.
Qed.

Lemma updatePalette_valid_witness :
  List.length
    (v_palette (updatePalette "#7BC4E8" (mkView [] None false false ""))) = 12%nat.
Proof.
  apply (updatePalette_valid "#7BC4E8" (mkView [] None false false "")).
  reflexivity.
Defined.

Lemma length_append s t :
  String.length (s ++ t)%string = (String.length s + String.length t)%nat.
Proof.
  induction s as [| c s IH]; [reflexivity |]. cbn [append String.length].
  rewrite IH. reflexivity.
Qed.

Lemma forallb_hexClass_append s t :
  forallb hexClass (list_ascii_of_string (s ++ t)%string)
  = forallb hexClass (list_ascii_of_string s)
    && forallb hexClass (list_ascii_of_string t).
Proof.
  induction s as [| c s IH]; [reflexivity |].
  cbn [append list_ascii_of_string forallb]. rewrite IH. apply andb_assoc.
Qed.

Lemma isValidHex_digits body :
  String.length body = 6%nat ->
  forallb hexClass (list_ascii_of_string body) = true ->
  isValidHex (String "#" body) = true.
Proof.
  destruct body as [| c1 [| c2 [| c3 [| c4 [| c5 [| c6 [| c7 body]]]]]]];
    try discriminate.
  intros _. cbn [list_ascii_of_string forallb isValidHex].
  rewrite andb_true_r. intros H.
  repeat (apply andb_true_iff in H; destruct H as [? H]).
  repeat (apply andb_true_iff; split); assumption.
Qed.

Lemma repeatChar_zero n :
  String.length (repeatChar n "0") = n
  /\ forallb hexClass (list_ascii_of_string (repeatChar n "0")) = true.
Proof.
  induction n as [| n [IH1 IH2]]; [split; reflexivity |].
  cbn [repeatChar String.length list_ascii_of_string forallb].
  rewrite IH1, IH2. split; reflexivity.
Qed.

(** X24: a typed colour made of ['#'] and three to five hex digits gets the
    12-entry palette of the colour padded with zeros, without error or
    warning. *)
Theorem updatePalette_partial (body : string) (st : ViewState) :
  (3 <= String.length body <= 5)%nat ->
  forallb hexClass (list_ascii_of_string body) = true ->
  let st' := updatePalette (String "#" body) st in
  isValidHex (padEnd (String "#" body) 7 "0") = true
  /\ v_palette st' = palette (generatePalette (padEnd (String "#" body) 7 "0"))
  /\ List.length (v_palette st') = 12%nat
  /\ v_showError st' = false /\ v_showWarning st' = false.
Proof.
  intros L H. cbv zeta.
  assert (V : isValidHex (padEnd (String "#" body) 7 "0") = true).
  { unfold padEnd. cbn [String.length append].
    destruct (repeatChar_zero (7 - S (String.length body))) as [R1 R2].
    apply isValidHex_digits.
    - rewrite length_append, R1. lia.
    - rewrite forallb_hexClass_append, H, R2. reflexivity. }
  unfold updatePalette. cbn [String.length].
  replace (7 <=? S (String.length body))%nat with false
    by (symmetry; apply Nat.leb_gt; lia).
  replace (4 <=? S (String.length body))%nat with true
    by (symmetry; apply Nat.leb_le; lia).
  cbn [andb]. cbv zeta. rewrite andb_false_r.
  cbn [v_showError v_palette v_inputGradeInfo v_showWarning v_warningText].
  split; [exact V |]. split; [reflexivity |].
  split; [apply generatePalette_length, isValidHex_accepted, V |].
  split; reflexivity.
Qed.

Lemma updatePalette_partial_witness :
  isValidHex (padEnd "#ABC" 7 "0") = true
  /\ List.length (v_palette (updatePalette "#ABC" (mkView [] None false false "")))
     = 12%nat.
Proof.
  destruct (updatePalette_partial "ABC" (mkView [] None false false ""))
    as (V & _ & L & _).
  - cbn. lia.
  - reflexivity.
  - split; assumption.
Defined.

Lemma isHexDigit_hexClass c : isHexDigit c = hexClass c.
Proof. rewrite hexVal_isHexDigit, hexClass_hexVal. reflexivity. Qed.

Lemma forallb_isHexDigit l : forallb isHexDigit l = forallb hexClass l.
Proof.
  induction l as [| c l IH]; [reflexivity |].
  cbn [forallb]. rewrite IH, isHexDigit_hexClass. reflexivity.
Qed.

Lemma sixHexDigits_hexClass s :
  sixHexDigits s = true ->
  String.length s = 6%nat /\ forallb hexClass (list_ascii_of_string s) = true.
Proof.
  unfold sixHexDigits. intros H. apply andb_true_iff in H. destruct H as [L F].
  apply Nat.eqb_eq in L. split; [exact L |].
  rewrite <- forallb_isHexDigit. exact F.
Qed.

(** A text of four to six characters pads to a colour [hexToRgb] accepts
    exactly when it is a ['#'] followed by hex digits. *)
Lemma padded_accepted s :
  (4 <= String.length s < 7)%nat ->
  hexToRgb (padEnd s 7 "0") <> None <-> partialHex s = true.
Proof.
  intros L. destruct s as [| c s']; [cbn in L; lia |].
  cbn [String.length] in L.
  assert (P : padEnd (String c s') 7 "0"
              = String c (s' ++ repeatChar (6 - String.length s') "0")%string)
    by reflexivity.
  destruct (repeatChar_zero (6 - String.length s')) as [R1 R2].
  assert (Len : String.length (s' ++ repeatChar (6 - String.length s') "0")%string
                = 6%nat) by (rewrite length_append, R1; lia).
  rewrite P. split.
  - intros A. apply hexToRgb_accepts in A. unfold isHexColor in A.
    apply orb_true_iff in A. destruct A as [A | A].
    + apply sixHexDigits_hexClass in A. destruct A as [A _].
      cbn [String.length] in A. lia.
    + destruct (Ascii.eqb_spec c "#") as [-> | Hc].
      * apply sixHexDigits_hexClass in A. destruct A as [_ A].
        rewrite forallb_hexClass_append in A. apply andb_true_iff in A.
        cbn [partialHex]. exact (proj1 A).
      * destruct c as [[] [] [] [] [] [] [] []];
          first [contradiction Hc; reflexivity | discriminate A].
  - intros H. destruct (Ascii.eqb_spec c "#") as [-> | Hc].
    + cbn [partialHex] in H. apply isValidHex_accepted, isValidHex_digits.
      * exact Len.
      * rewrite forallb_hexClass_append, H, R2. reflexivity.
    + destruct c as [[] [] [] [] [] [] [] []];
        first [contradiction Hc; reflexivity | discriminate H].
Qed.

(** X25: for an ASCII text of four characters or more that is not a valid
    hex colour the effect never shows the warning and leaves its text
    alone.  From seven characters on it shows the error and keeps the
    palette and the grade information.  Below seven it hides the error
    and replaces the palette: by the 12 entries of the text padded with
    zeros when the text is a ['#'] followed by hex digits, and by the
    empty palette with the default grade 50 for every other text. *)
Theorem updatePalette_other (hexColor : string) (st : ViewState) :
  isAscii hexColor = true ->
  (4 <= String.length hexColor)%nat ->
  isValidHex hexColor = false ->
  let st' := updatePalette hexColor st in
  v_showWarning st' = false
  /\ v_warningText st' = v_warningText st
  /\ v_showError st' = (7 <=? String.length hexColor)%nat
  /\ ((7 <= String.length hexColor)%nat ->
      v_palette st' = v_palette st
      /\ v_inputGradeInfo st' = v_inputGradeInfo st)
  /\ ((String.length hexColor < 7)%nat ->
      v_palette st' = palette (generatePalette (padEnd hexColor 7 "0"))
      /\ List.length (v_palette st') = (if partialHex hexColor then 12 else 0)%nat
      /\ (partialHex hexColor = false ->
          v_inputGradeInfo st' = Some (mkInfo 50 false Undefined Undefined))).
Proof.
  intros _ L4 V. cbv zeta. unfold updatePalette. rewrite V. cbn [negb].
  rewrite andb_true_r.
  destruct (7 <=? String.length hexColor)%nat eqn:L7.
  - apply Nat.leb_le in L7.
    cbn [v_showError v_palette v_inputGradeInfo v_showWarning v_warningText].
    repeat (split; [reflexivity |]). split.
    + intros _. split; reflexivity.
    + intros C. lia.
  - apply Nat.leb_gt in L7.
    replace (4 <=? String.length hexColor)%nat with true
      by (symmetry; apply Nat.leb_le; exact L4).
    cbv zeta. rewrite andb_false_r.
    cbn [v_showError v_palette v_inputGradeInfo v_showWarning v_warningText].
    repeat (split; [reflexivity |]). split; [intros C; lia |].
    intros _. split; [reflexivity |].
    pose proof (padded_accepted hexColor (conj L4 L7)) as A.
    destruct (partialHex hexColor).
    + split; [| discriminate].
      apply generatePalette_length, A. reflexivity.
    + assert (E : hexToRgb (padEnd hexColor 7 "0") = None).
      { destruct (hexToRgb (padEnd hexColor 7 "0")); [| reflexivity].
        assert (F : false = true) by (apply A; discriminate). discriminate F. }
      unfold generatePalette. rewrite E. split; [reflexivity |].
      intros _. reflexivity.
Qed.

Lemma updatePalette_other_witness :
  v_palette (updatePalette "#GGG" (mkView [] None true true "")) = []
  /\ v_showError (updatePalette "#GGG" (mkView [] None true true "")) = false.
Proof.
  destruct (updatePalette_other "#GGG" (mkView [] None true true ""))
    as (_ & _ & E & _ & P).
  - reflexivity.
  - cbn. lia.
  - reflexivity.
  - destruct P as (_ & L & _); [cbn; lia |].
    split; [| exact E].
    destruct (v_palette _); [reflexivity | discriminate L].
Defined.

(** ** The closest grade and the neighbours *)

(** X13: for a luminance in [0,1] that lies in no band, the closest grade
    [determineGrade] returns is one of the two neighbouring grades it
    returns with it. *)
Theorem closest_grade_is_neighbor (luminance : R) :
  0 <= luminance <= 1 ->
  gi_exact (determineGrade luminance) = false ->
  let info := determineGrade luminance in
  gi_lowerGrade info = Grade (gi_grade info)
  \/ gi_higherGrade info = Grade (gi_grade info).
Proof.
  intros Hl X. cbv zeta.
  assert (P : 0 < luminance <= 1).
  { destruct (Req_dec_T luminance 0) as [-> | N]; [| lra].
    rewrite determineGrade_black in X. discriminate X. }
  destruct (scanNeighbors_between luminance P) as (i & hi & lo & Hi & Lo & S & B).
  revert X. unfold determineGrade.
  destruct (find _ LUMINANCE_RANGES) as [r0 |] eqn:F; [discriminate |].
  intros _.
  assert (Nlo : ~ inBand luminance lo).
  { intros I. apply nth_error_In in Lo. apply (find_none _ _ F) in Lo.
    apply inBand_test in I. congruence. }
  assert (Nhi : ~ inBand luminance hi).
  { intros I. apply nth_error_In in Hi. apply (find_none _ _ F) in Hi.
    apply inBand_test in I. congruence. }
  unfold findNeighboringGrades. rewrite sortedRanges_table, S.
  destruct (closest_fold luminance LUMINANCE_RANGES 50 Number_MAX_VALUE)
    as [[_ A] | (j & r & Hr & E & _ & A & _)].
  - exfalso. specialize (A (mkRange 0 1.000 1.000) (or_introl eq_refl)).
    pose proof Number_MAX_VALUE_large as M.
    unfold distance, midpoint in A. cbn [rmin rmax] in A.
    unfold Rabs in A. destruct (Rcase_abs _) in A; lra.
  - rewrite E. cbn [gi_grade gi_lowerGrade gi_higherGrade].
    assert (Alo : distance luminance r <= distance luminance lo)
      by (apply A; eapply nth_error_In, Lo).
    assert (Ahi : distance luminance r <= distance luminance hi)
      by (apply A; eapply nth_error_In, Hi).
    clear A E F S. apply nth_error_In in Hr.
    unfold inBand in Nlo, Nhi. unfold distance, midpoint in Alo, Ahi.
    unfold LUMINANCE_RANGES in Hi, Lo, Hr. cbn [In] in Hr.
    do 11 (destruct i as [| i];
           [cbn [nth_error] in Hi, Lo; inversion Hi; inversion Lo; subst hi lo;
            clear Hi Lo; cbn [rmin rmax grade] in *;
            repeat (destruct Hr as [<- | Hr]); try contradiction;
            cbn [rmin rmax grade] in *;
            first [left; reflexivity | right; reflexivity
                  | exfalso; revert Alo Ahi; unfold Rabs;
                    repeat destruct (Rcase_abs _); lra] |]).
    cbn [nth_error] in Lo. destruct i; discriminate Lo.
Qed.

Lemma closest_grade_is_neighbor_witness :
  gi_lowerGrade (determineGrade 0.7) = Grade (gi_grade (determineGrade 0.7))
  \/ gi_higherGrade (determineGrade 0.7) = Grade (gi_grade (determineGrade 0.7)).
Proof.
  apply closest_grade_is_neighbor; [lra |].
  unfold determineGrade, LUMINANCE_RANGES, geb. cbn [find rmin rmax andb].
  repeat (settle_cmp; cbn [andb]).
  destruct (fold_left _ _ _) as [closest d].
  destruct (findNeighboringGrades 0.7) as [lo hi]. reflexivity.
Defined.
